(** * realtime_newsletter: the classification, summarisation and grouping
    pipeline of [app.py]

    The development embeds the four functions of [app.py] that hold the
    program's logic ([categorize_article], [summarize_text],
    [process_articles] and the grouping part of [generate_newsletter_html])
    and states the properties of the specification about them.

    Modelling choices.
    - A Python [str] is a [string] whose characters are the code points
      0..255; [str.lower] is Python's on that range.
    - An article is a Python [dict]: a finite map from keys to values.
      Articles are objects of a store, the lists the functions take and
      return hold references, and [process_articles] writes to the store.
    - The sector catalog and the grouping [dict] are insertion-ordered:
      association lists with distinct keys.
    - spaCy is not part of the repository. Of [nlp(text)] the code reads
      [.text] (the text given, spaCy's tokenisation being non-destructive)
      and [.sents]; the sentence segmenter is a parameter of the model. *)

From Stdlib Require Import ZArith Lia List Bool Ascii String.
From stdpp Require Import base option list strings gmap.

Open Scope Z_scope.

(** ** Python strings *)

Module PyStr.

(** Code points with a distinct lowercase form: A-Z, and the Latin-1
    capitals 0xC0-0xDE except the multiplication sign 0xD7. *)
Definition is_upper (c : ascii) : bool :=
  let n := Z.of_N (N_of_ascii c) in
  ((65 <=? n) && (n <=? 90)) || ((192 <=? n) && (n <=? 222) && negb (n =? 215)).

Definition lower_char (c : ascii) : ascii :=
  if is_upper c then ascii_of_N (N_of_ascii c + 32) else c.

(** [s.lower()] *)
Fixpoint lower (s : string) : string :=
  match s with
  | EmptyString => EmptyString
  | String c s' => String (lower_char c) (lower s')
  end.

(** [text.startswith(p)] *)
Fixpoint startswith (text p : string) {struct p} : bool :=
  match p, text with
  | EmptyString, _ => true
  | String _ _, EmptyString => false
  | String a p', String b text' => if Ascii.eqb a b then startswith text' p' else false
  end.

(** [kw in text]: [kw] starts at some position of [text]. *)
Fixpoint contains (text kw : string) : bool :=
  startswith text kw ||
  match text with
  | EmptyString => false
  | String _ text' => contains text' kw
  end.

(** [sep.join(l)] *)
Fixpoint join (sep : string) (l : list string) : string :=
  match l with
  | [] => ""
  | [s] => s
  | s :: l' => s +:+ sep +:+ join sep l'
  end.

(** [list(s)]: iterating a string yields its one-character strings. *)
Fixpoint chars (s : string) : list string :=
  match s with
  | EmptyString => []
  | String c s' => String c "" :: chars s'
  end.

(** *** [repr] of a string, as [str(list)] prints the items of a list *)

Definition is_printable (c : ascii) : bool :=
  let n := Z.of_N (N_of_ascii c) in
  (32 <=? n) && negb ((127 <=? n) && (n <=? 160)) && negb (n =? 173).

Definition hex_digit (n : N) : ascii :=
  ascii_of_N (if (n <? 10)%N then 48 + n else 87 + n).

Definition hex_escape (c : ascii) : string :=
  let n := N_of_ascii c in
  String "\" (String "x" (String (hex_digit (n / 16)) (String (hex_digit (n mod 16)) ""))).

Definition has_char (c : ascii) (s : string) : bool := contains s (String c "").

Definition squote : ascii := "039".
Definition dquote : ascii := "034".

(** The quote [repr] chooses: double quotes only when the string holds a
    single quote and no double quote. *)
Definition repr_quote (s : string) : ascii :=
  if has_char squote s && negb (has_char dquote s) then dquote else squote.

Definition repr_char (q c : ascii) : string :=
  if Ascii.eqb c q || Ascii.eqb c "\" then String "\" (String c "")
  else if Ascii.eqb c "009" then "\t"
  else if Ascii.eqb c "010" then "\n"
  else if Ascii.eqb c "013" then "\r"
  else if is_printable c then String c ""
  else hex_escape c.

Fixpoint repr_body (q : ascii) (s : string) : string :=
  match s with
  | EmptyString => EmptyString
  | String c s' => repr_char q c +:+ repr_body q s'
  end.

Definition repr (s : string) : string :=
  let q := repr_quote s in
  String q (repr_body q s +:+ String q "").

End PyStr.

(** ** Python values, exceptions and the object store *)

(** The values an article [dict] holds: [None], a [str], or a list of
    [str] (the [sectors] entry). *)
Inductive pyval : Type :=
  | PNone
  | PStr (s : string)
  | PList (l : list string).

(** [str(v)], which is what an f-string field [{v}] prints. *)
Definition py_str (v : pyval) : string :=
  match v with
  | PNone => "None"
  | PStr s => s
  | PList l => "[" +:+ PyStr.join ", " (map PyStr.repr l) +:+ "]"
  end.

(** Truth value of a list: [if l:] holds when [l] is not empty. *)
Definition truthy {A : Type} (l : list A) : bool :=
  match l with
  | [] => false
  | _ :: _ => true
  end.

Inductive exn : Type :=
  | KeyError (key : string)
  | TypeError
  | AttributeError.

Inductive outcome (A : Type) : Type :=
  | Returned (a : A)
  | Raised (e : exn).
Arguments Returned {A} a.
Arguments Raised {A} e.

(** Article objects live in a store; a reference is an address. Every
    reference denotes an object, as in Python. *)
Definition loc := nat.
Definition store := loc -> gmap string pyval.

Definition store_set (st : store) (r : loc) (d : gmap string pyval) : store :=
  fun r' => if Nat.eqb r' r then d else st r'.

(** Computations that read and write the store and may raise; what was
    written before an exception stays written. *)
Definition Py (A : Type) : Type := store -> outcome A * store.

Definition ret {A : Type} (a : A) : Py A := fun st => (Returned a, st).

Definition raise {A : Type} (e : exn) : Py A := fun st => (Raised e, st).

Definition bind {A B : Type} (m : Py A) (k : A -> Py B) : Py B :=
  fun st =>
    match m st with
    | (Returned a, st') => k a st'
    | (Raised e, st') => (Raised e, st')
    end.

Declare Scope py_scope.
Delimit Scope py_scope with py.
Notation "x <- m ;; k" := (bind m (fun x => k))
  (at level 100, m at next level, right associativity) : py_scope.
Notation "m ;;; k" := (bind m (fun _ => k))
  (at level 100, right associativity) : py_scope.

(** [d.get(key, default)] on the object at [r] *)
Definition dict_get (r : loc) (key : string) (default : pyval) : Py pyval :=
  fun st => (Returned (match st r !! key with Some v => v | None => default end), st).

(** [d[key]] *)
Definition getitem (r : loc) (key : string) : Py pyval :=
  fun st =>
    match st r !! key with
    | Some v => (Returned v, st)
    | None => (Raised (KeyError key), st)
    end.

(** [d[key] = v] *)
Definition setitem (r : loc) (key : string) (v : pyval) : Py unit :=
  fun st => (Returned tt, store_set st r (<[key := v]> (st r))).

(** [for x in v]: the items a [for] loop draws from a value. *)
Definition iterate (v : pyval) : Py (list string) :=
  match v with
  | PList l => ret l
  | PStr s => ret (PyStr.chars s)
  | PNone => raise TypeError
  end.

(** A [for] loop that threads a local variable through its body. *)
Fixpoint for_each {A S : Type} (l : list A) (body : S -> A -> Py S) (s : S) : Py S :=
  match l with
  | [] => ret s
  | x :: l' => bind (body s x) (for_each l' body)
  end.

(** ** Insertion-ordered dictionaries *)

Module ODict.
Section Ops.
Context {V : Type}.

Definition keys (d : list (string * V)) : list string := map fst d.

(** [d.get(k)] *)
Fixpoint get (d : list (string * V)) (k : string) : option V :=
  match d with
  | [] => None
  | (k', v) :: d' => if String.eqb k' k then Some v else get d' k
  end.

(** [k in d] *)
Definition mem (d : list (string * V)) (k : string) : bool :=
  match get d k with Some _ => true | None => false end.

(** [d[k] = v]: a new key goes last, a known key keeps its place. *)
Fixpoint set (d : list (string * V)) (k : string) (v : V) : list (string * V) :=
  match d with
  | [] => [(k, v)]
  | (k', v') :: d' =>
      if String.eqb k' k then (k', v) :: d' else (k', v') :: set d' k v
  end.

(** The value under a known key replaced by [f] of it, in place. *)
Fixpoint alter (d : list (string * V)) (k : string) (f : V -> V) : list (string * V) :=
  match d with
  | [] => []
  | (k', v') :: d' =>
      if String.eqb k' k then (k', f v') :: d' else (k', v') :: alter d' k f
  end.

(** The invariant of a [dict]: keys are distinct. *)
Definition wf (d : list (string * V)) : Prop := List.NoDup (keys d).
End Ops.
End ODict.

(** The sector catalog: sector name to keyword list, in insertion order. *)
Definition catalog := list (string * list string).

(** [l[:stop]], after CPython's adjustment of a slice bound. *)
Definition slice_stop (len stop : Z) : Z :=
  if stop <? 0 then (if stop + len <? 0 then 0 else stop + len)
  else if len <? stop then len else stop.

Definition slice_to {A : Type} (l : list A) (stop : Z) : list A :=
  firstn (Z.to_nat (slice_stop (Z.of_nat (length l)) stop)) l.

(** ** The pipeline of [app.py] *)

(** What the code reads of a spaCy [Doc]. *)
Record Doc : Type := mkDoc {
  doc_text : string;
  doc_sents : list string
}.

(** [d.get(key)], on a [dict] value: [None] when the key is missing. *)
Definition py_get (d : gmap string pyval) (key : string) : pyval :=
  match d !! key with
  | Some v => v
  | None => PNone
  end.

(** The article [get_newsapi_articles] makes of an item of the API's
    answer; [source_name] stands for [article['source']['name']]. The HTTP
    request around it is not part of the model. *)
Definition newsapi_article (article : gmap string pyval) (source_name : pyval)
  : gmap string pyval :=
  <["title" := py_get article "title"]>
    (<["link" := py_get article "url"]>
       (<["published" := py_get article "publishedAt"]>
          (<["summary" := py_get article "description"]>
             (<["source" := source_name]> ∅)))).

(** The default of [summarize_text]'s [max_sentences]. *)
Definition default_max_sentences : Z := 3.

Section Pipeline.

(** The sentence texts spaCy's model yields for a text
    ([[sent.text for sent in nlp(text).sents]]). *)
Variable sentences_of : string -> list string.

(** [nlp(text)] *)
Definition nlp (t : string) : Doc :=
  {| doc_text := t; doc_sents := sentences_of t |}.

(** [categorize_article(article_text, sectors)] *)
Definition categorize_article (article_text : string) (sectors : catalog) : list string :=
  let doc := nlp (PyStr.lower article_text) in
  fold_left
    (fun article_sectors '(sector, keywords) =>
       if existsb (fun keyword => PyStr.contains (doc_text doc) keyword) keywords
       then article_sectors ++ [sector]
       else article_sectors)
    sectors [].

(** A call of [categorize_article] whose [sectors] argument may be [None]:
    [sectors.items()] then raises [AttributeError]. *)
Definition categorize_article_call (article_text : string) (sectors : option catalog)
  : outcome (list string) :=
  match sectors with
  | None => Raised AttributeError
  | Some c => Returned (categorize_article article_text c)
  end.

(** [summarize_text(text, max_sentences)] *)
Definition summarize_text (text : string) (max_sentences : Z) : string :=
  let doc := nlp text in
  let sentences := doc_sents doc in
  PyStr.join " " (slice_to sentences max_sentences).

(** The f-string [f"{article.get('title', '')}. {article.get('summary', '')}"]. *)
Definition title_and_summary_of (article : loc) : Py string :=
  (title <- dict_get article "title" (PStr "") ;;
   summary <- dict_get article "summary" (PStr "") ;;
   ret (py_str title +:+ ". " +:+ py_str summary))%py.

(** The body of the loop of [process_articles]. *)
Definition process_article (sectors : catalog) (processed_data : list loc) (article : loc)
  : Py (list loc) :=
  (title_and_summary <- title_and_summary_of article ;;
   let identified_sectors := categorize_article title_and_summary sectors in
   if truthy identified_sectors then
     setitem article "sectors" (PList identified_sectors) ;;;
     setitem article "generated_summary"
       (PStr (summarize_text title_and_summary default_max_sentences)) ;;;
     ret (processed_data ++ [article])
   else ret processed_data)%py.

(** [process_articles(articles, sectors)] *)
Definition process_articles (articles : list loc) (sectors : catalog) : Py (list loc) :=
  for_each articles (process_article sectors) [].

(** The grouping of [generate_newsletter_html]; [SECTORS] is the global
    variable the function reads, here an argument. *)

(** [{sector: [] for sector in SECTORS.keys()}] *)
Definition empty_groups (SECTORS : catalog) : list (string * list loc) :=
  fold_left (fun d sector => ODict.set d sector []) (ODict.keys SECTORS) [].

(** The inner loop, over the sector names of one article. *)
Definition add_to_groups (article : loc) (groups : list (string * list loc))
    (tags : list string) : list (string * list loc) :=
  fold_left
    (fun g sector =>
       if ODict.mem g sector
       then ODict.alter g sector (fun bucket => bucket ++ [article])
       else g)
    tags groups.

Definition group_article (groups : list (string * list loc)) (article : loc)
  : Py (list (string * list loc)) :=
  (v <- getitem article "sectors" ;;
   tags <- iterate v ;;
   ret (add_to_groups article groups tags))%py.

Definition articles_by_sector (SECTORS : catalog) (processed_articles : list loc)
  : Py (list (string * list loc)) :=
  for_each processed_articles group_article (empty_groups SECTORS).

(** [{sector: articles for sector, articles in d.items() if articles}] *)
Definition drop_empty (d : list (string * list loc)) : list (string * list loc) :=
  fold_left
    (fun out '(sector, articles) =>
       if truthy articles then ODict.set out sector articles else out)
    d [].

Definition filtered_articles_by_sector (SECTORS : catalog) (processed_articles : list loc)
  : Py (list (string * list loc)) :=
  (groups <- articles_by_sector SECTORS processed_articles ;;
   ret (drop_empty groups))%py.

(** What jinja2 makes of the template, the groups and the date; neither
    the library nor the template file is code of the repository. *)
Variable render : list (string * list (gmap string pyval)) -> string -> string.

(** [generate_newsletter_html(processed_articles, template_file, date)]:
    the groups, with the articles the references denote, go to the
    template. *)
Definition generate_newsletter_html (SECTORS : catalog) (processed_articles : list loc)
    (date : string) : Py string :=
  (filtered <- filtered_articles_by_sector SECTORS processed_articles ;;
   fun st => (Returned (render (map (fun e => (fst e, map st (snd e))) filtered) date), st))%py.

(** Steps 2 and 3 of [main_workflow]: process, stop when nothing is
    relevant, group. *)
Definition newsletter_payload (SECTORS : catalog) (finance_news : list loc)
  : Py (option (list (string * list loc))) :=
  (processed_articles <- process_articles finance_news SECTORS ;;
   if truthy processed_articles then
     payload <- filtered_articles_by_sector SECTORS processed_articles ;;
     ret (Some payload)
   else ret None)%py.

End Pipeline.

(** The catalog [main_workflow] defines. *)
Definition SECTORS : catalog :=
  [ ("Technology", ["tech"; "software"; "hardware"; "AI"; "startup"; "semiconductor";
                    "cloud computing"; "fintech"; "blockchain"; "cybersecurity"; "innovation"]);
    ("Pharmaceuticals", ["pharma"; "drug"; "biotech"; "clinical trial"; "vaccine";
                         "healthcare"; "medicine"; "biotechnology"; "FDA"; "R&D"]);
    ("Energy", ["oil"; "gas"; "renewable"; "solar"; "wind"; "energy market"; "crude";
                "drilling"; "utilities"; "power grid"; "ESG"]);
    ("Automotive", ["auto"; "electric vehicle"; "car"; "tesla"; "manufacturing"; "automaker";
                    "EV"; "autonomous driving"; "mobility"]);
    ("Finance", ["bank"; "investment"; "fund"; "stock"; "bond"; "forex"; "economy"; "market";
                 "currency"; "financial"; "securities"; "trading"; "merger"; "acquisition";
                 "IPO"; "earnings"; "interest rate"; "inflation"; "recession"]);
    ("Real Estate", ["real estate"; "property"; "housing"; "mortgage"; "construction"; "REIT";
                     "commercial property"; "residential market"]);
    ("Retail", ["retail"; "e-commerce"; "consumer goods"; "fashion"; "supermarket";
                "shopping"; "online sales"]) ].

(** ** Fetching and the workflow *)

(** An item of [data['articles']], as the API documents it: its entries
    other than [source] (strings or [None]), and the entries of its
    [source] object when it has one. *)
Record api_item : Type := mkItem {
  item_entries : gmap string pyval;
  item_source : option (gmap string pyval)
}.

(** [article['source']['name']] *)
Definition source_name (article : api_item) : outcome pyval :=
  match item_source article with
  | None => Raised (KeyError "source")
  | Some src =>
      match src !! "name" with
      | Some v => Returned v
      | None => Raised (KeyError "name")
      end
  end.

(** The loop of [get_newsapi_articles] over [data['articles']]; an
    exception ends it, and the list built so far is lost. *)
Fixpoint collect_articles (items : list api_item) (articles : list (gmap string pyval))
  : outcome (list (gmap string pyval)) :=
  match items with
  | [] => Returned articles
  | article :: rest =>
      match source_name article with
      | Returned name =>
          collect_articles rest (articles ++ [newsapi_article (item_entries article) name])
      | Raised e => Raised e
      end
  end.

(** What [requests.get], [raise_for_status] and [response.json()] leave:
    a failed request (a [RequestException]), or the decoded answer with
    its [articles] entry when it has one. *)
Inductive http_answer : Type :=
  | RequestFailed
  | Answer (articles : option (list api_item)).

Inductive fetch_outcome : Type :=
  | RequestException
  | FetchRaised (e : exn)
  | Fetched (articles : list (gmap string pyval)).

(** [get_newsapi_articles], from the answer of the request on. *)
Definition get_newsapi_articles (answer : http_answer) : fetch_outcome :=
  match answer with
  | RequestFailed => RequestException
  | Answer None => FetchRaised (KeyError "articles")
  | Answer (Some items) =>
      match collect_articles items [] with
      | Returned articles => Fetched articles
      | Raised e => FetchRaised e
      end
  end.

(** The fetched articles as objects of a store: each [dict] the loop
    builds is a new object, the i-th at address i. *)
Definition store_of_list (articles : list (gmap string pyval)) : store :=
  fun r => nth r articles ∅.

Definition refs_of (articles : list (gmap string pyval)) : list loc :=
  seq 0 (length articles).

(** The console review of [main_workflow]: it reads four entries of each
    processed article. *)
Definition print_review (processed_articles : list loc) : Py unit :=
  for_each processed_articles
    (fun _ article =>
       (getitem article "title" ;;;
        getitem article "link" ;;;
        getitem article "sectors" ;;;
        getitem article "generated_summary" ;;;
        ret tt)%py)
    tt.

(** How a run of [main_workflow] ends. Writing and opening the file come
    after the newsletter is rendered, and their failures are caught. *)
Inductive run_end : Type :=
  | FetchFailed
  | NoRelevantArticles
  | NewsletterRendered (html : string)
  | Uncaught (e : exn).

Section Workflow.

Variable sentences_of : string -> list string.
Variable render : list (string * list (gmap string pyval)) -> string -> string.

(** [main_workflow], given the answer of the request and today's date.
    Only a [RequestException] of the fetch is caught. *)
Definition main_workflow (answer : http_answer) (today : string) : run_end * store :=
  match get_newsapi_articles answer with
  | RequestException => (FetchFailed, store_of_list [])
  | FetchRaised e => (Uncaught e, store_of_list [])
  | Fetched finance_news =>
      let st := store_of_list finance_news in
      match process_articles sentences_of (refs_of finance_news) SECTORS st with
      | (Raised e, st1) => (Uncaught e, st1)
      | (Returned processed_articles, st1) =>
          if truthy processed_articles then
            match print_review processed_articles st1 with
            | (Raised e, st2) => (Uncaught e, st2)
            | (Returned _, st2) =>
                match generate_newsletter_html render SECTORS processed_articles today st2 with
                | (Returned html, st3) => (NewsletterRendered html, st3)
                | (Raised e, st3) => (Uncaught e, st3)
                end
            end
          else (NoRelevantArticles, st1)
      end
  end.

End Workflow.

(** The text [process_articles] builds for the article made of an item. *)
Definition item_text (entries : gmap string pyval) : string :=
  py_str (py_get entries "title") +:+ ". " +:+ py_str (py_get entries "description").

(** The item has what [article['source']['name']] reads. *)
Definition has_source_name (item : api_item) : Prop :=
  exists name, source_name item = Returned name.

(** The article the loop of [get_newsapi_articles] makes of an item that
    has a source name. *)
Definition article_of_item (item : api_item) : gmap string pyval :=
  newsapi_article (item_entries item)
    (match source_name item with
     | Returned name => name
     | Raised _ => PNone
     end).

Section WorkflowVocabulary.

Variable sentences_of : string -> list string.




End WorkflowVocabulary.

(** ** Vocabulary of the specification *)

(** [kw] occurs in [text] as a substring. *)
Definition occurs_in (kw text : string) : Prop :=
  exists pre post : string, text = pre +:+ kw +:+ post.

(** [kw] occurs in [text] when case is ignored. *)
Definition ci_occurs_in (kw text : string) : Prop :=
  occurs_in (PyStr.lower kw) (PyStr.lower text).

Definition ci_contains (text kw : string) : bool :=
  PyStr.contains (PyStr.lower text) (PyStr.lower kw).

(** The classification as the specification words it: the catalog's sector
    names, in catalog order, that have a keyword occurring in the
    lowercased text when case is ignored. *)
Definition classifier_spec (article_text : string) (sectors : catalog) : list string :=
  map fst
    (List.filter
       (fun entry => existsb (ci_contains (PyStr.lower article_text)) (snd entry))
       sectors).

(** A keyword list is lowercase when [lower] leaves each keyword as it is. *)
Definition lowercase_keywords (sectors : catalog) : Prop :=
  forall sector keywords keyword,
    In (sector, keywords) sectors -> In keyword keywords -> PyStr.lower keyword = keyword.

(** The sector names under key [sectors] of an article of the store. *)
Definition tags_of (st : store) (r : loc) : option (list string) :=
  match st r !! "sectors" with
  | Some (PList l) => Some l
  | _ => None
  end.

(** The test the code applies to one catalog entry. *)
Definition sector_matches (article_text : string) (entry : string * list string) : bool :=
  existsb (fun keyword => PyStr.contains (PyStr.lower article_text) keyword) (snd entry).

(** The sector names of an article, none when it has no list of them. *)
Definition tags_or_nil (st : store) (r : loc) : list string :=
  match tags_of st r with
  | Some l => l
  | None => []
  end.

(** What article [r] adds to the bucket of key [k]: one entry for each of
    its sector names that is [k]. *)
Definition hits (r : loc) (k : string) (tags : list string) : list loc :=
  flat_map (fun s => if String.eqb k s then [r] else []) tags.

(** The article at [r] names [sector] among its sectors. *)
Definition has_tag (st : store) (sector : string) (r : loc) : bool :=
  existsb (String.eqb sector) (tags_or_nil st r).

(** The bucket of a sector in a payload, empty when the payload has no
    such key. *)
Definition bucket_or_nil (payload : list (string * list loc)) (sector : string) : list loc :=
  match ODict.get payload sector with
  | Some bucket => bucket
  | None => []
  end.

(** ** Vocabulary for the articles of a store *)

(** The text the f-string of [process_articles] builds from an article. *)
Definition article_text (a : gmap string pyval) : string :=
  py_str (match a !! "title" with Some v => v | None => PStr "" end)
  +:+ ". " +:+
  py_str (match a !! "summary" with Some v => v | None => PStr "" end).

Section ArticleVocabulary.

Variable sentences_of : string -> list string.

(** The article has a sector: [process_articles] keeps it. *)
Definition relevant (sectors : catalog) (a : gmap string pyval) : bool :=
  truthy (categorize_article sentences_of (article_text a) sectors).

(** The article after the two assignments of [process_articles]. *)
Definition enrich (sectors : catalog) (a : gmap string pyval) : gmap string pyval :=
  <["generated_summary" :=
      PStr (summarize_text sentences_of (article_text a) default_max_sentences)]>
    (<["sectors" := PList (categorize_article sentences_of (article_text a) sectors)]> a).

(** The store after the two assignments to the article at [r]. *)
Definition enrich_at (sectors : catalog) (r : loc) (st : store) : store :=
  let t := article_text (st r) in
  let st1 := store_set st r
               (<["sectors" := PList (categorize_article sentences_of t sectors)]> (st r)) in
  store_set st1 r
    (<["generated_summary" := PStr (summarize_text sentences_of t default_max_sentences)]>
       (st1 r)).

End ArticleVocabulary.

(** ** A punctuation-based segmenter, to run the pipeline on examples *)

Module Sample.

Definition is_space (c : ascii) : bool :=
  Ascii.eqb c " " || Ascii.eqb c "009" || Ascii.eqb c "010" || Ascii.eqb c "013".

Definition is_stop (c : ascii) : bool :=
  Ascii.eqb c "." || Ascii.eqb c "!" || Ascii.eqb c "?".

Definition at_boundary (rest : string) : bool :=
  match rest with
  | EmptyString => true
  | String c _ => is_space c
  end.

Definition is_empty (s : string) : bool :=
  match s with
  | EmptyString => true
  | String _ _ => false
  end.

(** A sentence ends at a stop that is followed by white space or by the
    end of the text; white space between sentences is skipped. *)
Fixpoint split (s cur : string) : list string :=
  match s with
  | EmptyString => if is_empty cur then [] else [cur]
  | String c s' =>
      if is_space c && is_empty cur then split s' cur
      else if is_stop c && at_boundary s' then (cur +:+ String c "") :: split s' ""
      else split s' (cur +:+ String c "")
  end.

Definition sentences (s : string) : list string := split s "".

(** A store whose objects are all the article [a]. *)
Definition store_of (a : gmap string pyval) : store := fun _ => a.

Definition article (title summary : pyval) : gmap string pyval :=
  <["title" := title]> (<["summary" := summary]> ∅).

Definition two_sectors : catalog := [("Tech", ["chip"]); ("Finance", ["bank"])].

(** Two processed articles: the first tagged Finance, the others Tech
    and Finance. *)
Definition tagged : store :=
  fun r =>
    if Nat.eqb r 0 then <["sectors" := PList ["Finance"]]> ∅
    else <["sectors" := PList ["Tech"; "Finance"]]> ∅.

(** An article tagged with a sector the catalog does not have. *)
Definition tagged_unknown : store :=
  fun _ => <["sectors" := PList ["Tech"; "Crypto"]]> ∅.

(** Two fetched articles: the first about a bank, the others about the
    weather. *)
Definition fetched : store :=
  fun r =>
    if Nat.eqb r 0 then article (PStr "Bank profits rise") (PStr "Shares up.")
    else article (PStr "Weather today") (PStr "Sunny.").

(** One article tagged Tech, the others fetched and not processed. *)
Definition half_processed : store :=
  fun r =>
    if Nat.eqb r 0 then <["sectors" := PList ["Tech"]]> ∅
    else article (PStr "Weather today") (PStr "Sunny.").

(** Articles tagged with one sector, which the catalog does not have. *)
Definition tagged_crypto : store :=
  fun _ => <["sectors" := PList ["Crypto"]]> ∅.

(** Articles that name Tech twice. *)
Definition tagged_twice : store :=
  fun _ => <["sectors" := PList ["Tech"; "Tech"]]> ∅.

(** Items of an answer: one about a bank, one about the weather and with
    no description, one with no source. *)
Definition wire : gmap string pyval := <["name" := PStr "Wire"]> ∅.

Definition bank_item : api_item :=
  {| item_entries := <["title" := PStr "Bank profits rise"]>
                       (<["description" := PStr "Shares up."]> ∅);
     item_source := Some wire |}.


Definition sourceless_item : api_item :=
  {| item_entries := <["title" := PStr "Bank profits rise"]> ∅;
     item_source := None |}.

(** A template that prints the date and the sectors with the number of
    articles of each as a run of stars. *)
Definition stars (n : nat) : string := PyStr.join EmptyString (repeat "*" n).

Definition render (groups : list (string * list (gmap string pyval))) (date : string)
  : string :=
  date +:+ ": "
  +:+ PyStr.join ", " (map (fun e => fst e +:+ " " +:+ stars (length (snd e))) groups).

End Sample.

(** * Properties *)

(** ** Strings *)

Lemma append_nil_l (b : string) : EmptyString +:+ b = b.
Proof. reflexivity. Qed.

Lemma append_cons (c : ascii) (a b : string) : String c a +:+ b = String c (a +:+ b).
Proof. reflexivity. Qed.

Ltac str_simpl := rewrite ?append_cons, ?append_nil_l in *.

Lemma append_assoc (a b c : string) : (a +:+ b) +:+ c = a +:+ b +:+ c.
Proof.
  induction a as [|x a IH]; str_simpl; [reflexivity | now rewrite IH].
Qed.

Lemma startswith_spec (p text : string) :
  PyStr.startswith text p = true <-> exists post, text = p +:+ post.
Proof.
  revert text. induction p as [|a p IH]; intros text; simpl.
  - split; [intros _; now exists text | reflexivity].
  - destruct text as [|b text].
    + split; [discriminate | intros [post H]; discriminate].
    + destruct (Ascii.eqb_spec a b) as [->|Hne].
      * rewrite IH. split; intros [post H]; exists post; str_simpl; congruence.
      * split; [discriminate | intros [post H]; str_simpl; congruence].
Qed.

(** [contains] decides substring occurrence. *)
Lemma contains_spec (text kw : string) :
  PyStr.contains text kw = true <-> occurs_in kw text.
Proof.
  unfold occurs_in. induction text as [|c text IH]; simpl.
  - rewrite orb_false_r, startswith_spec. split.
    + intros [post H]. now exists EmptyString, post.
    + intros [pre [post H]]. destruct pre; str_simpl; [now exists post | discriminate].
  - rewrite orb_true_iff, startswith_spec, IH. split.
    + intros [[post H] | [pre [post H]]].
      * now exists EmptyString, post.
      * exists (String c pre), post. str_simpl. now rewrite H.
    + intros [pre [post H]]. destruct pre as [|x pre]; str_simpl.
      * left. now exists post.
      * right. exists pre, post. congruence.
Qed.

Lemma lower_char_idem (c : ascii) :
  PyStr.lower_char (PyStr.lower_char c) = PyStr.lower_char c.
Proof.
  destruct c as [[] [] [] [] [] [] [] []]; vm_compute; reflexivity.
Qed.

Lemma lower_idem (s : string) : PyStr.lower (PyStr.lower s) = PyStr.lower s.
Proof.
  induction s as [|c s IH]; simpl; [reflexivity|].
  now rewrite lower_char_idem, IH.
Qed.

Lemma lower_app (a b : string) :
  PyStr.lower (a +:+ b) = PyStr.lower a +:+ PyStr.lower b.
Proof.
  induction a as [|c a IH]; str_simpl; simpl; str_simpl; [reflexivity | now rewrite IH].
Qed.

(** An occurrence survives lowercasing both sides. *)
Lemma occurs_in_lower (kw text : string) :
  occurs_in kw text -> occurs_in (PyStr.lower kw) (PyStr.lower text).
Proof.
  intros [pre [post ->]]. exists (PyStr.lower pre), (PyStr.lower post).
  now rewrite !lower_app.
Qed.

(** What the code tests implies the occurrence with case ignored; the
    converse needs the keyword to be lowercase. *)
Lemma contains_lower_ci (text kw : string) :
  PyStr.contains (PyStr.lower text) kw = true -> ci_contains (PyStr.lower text) kw = true.
Proof.
  unfold ci_contains. rewrite !contains_spec. intros H.
  apply occurs_in_lower in H. now rewrite lower_idem in H |- *.
Qed.

Lemma ci_contains_lowercase (text kw : string) :
  PyStr.lower kw = kw ->
  ci_contains (PyStr.lower text) kw = PyStr.contains (PyStr.lower text) kw.
Proof. intros H. unfold ci_contains. now rewrite lower_idem, H. Qed.

Example string_samples :
  PyStr.lower "IPO Filing" = "ipo filing"
  /\ PyStr.contains "this is scary" "car" = true
  /\ PyStr.contains "abc" EmptyString = true
  /\ PyStr.join " " ["a"; "b"; "c"] = "a b c"
  /\ PyStr.repr "a" = "'a'"
  /\ PyStr.repr "b'c" = String PyStr.dquote ("b'c" +:+ String PyStr.dquote EmptyString)
  /\ py_str (PList ["Tech"; "Finance"]) = "['Tech', 'Finance']"
  /\ slice_to [1; 2; 3] (-1) = [1; 2]
  /\ slice_to [1; 2; 3] 5 = [1; 2; 3].
Proof. vm_compute. repeat split. Qed.

(** ** The classifier *)

Lemma existsb_ext_in {A : Type} (f g : A -> bool) (l : list A) :
  (forall x, In x l -> f x = g x) -> existsb f l = existsb g l.
Proof.
  induction l as [|x l IH]; simpl; intros H; [reflexivity|].
  rewrite (H x), IH; auto.
Qed.

Section Classifier.

Variable sentences_of : string -> list string.

Lemma categorize_loop (t : string) (sectors : catalog) (acc : list string) :
  fold_left
    (fun article_sectors '(sector, keywords) =>
       if existsb (fun keyword => PyStr.contains t keyword) keywords
       then article_sectors ++ [sector]
       else article_sectors)
    sectors acc
  = acc ++ map fst
      (List.filter (fun entry => existsb (fun keyword => PyStr.contains t keyword) (snd entry))
         sectors).
Proof.
  revert acc. induction sectors as [|[sector keywords] sectors IH]; intros acc; simpl.
  - now rewrite app_nil_r.
  - rewrite IH. destruct (existsb _ keywords); simpl;
      [now rewrite <- app_assoc | reflexivity].
Qed.

(** The classifier keeps, in catalog order, the sectors with a keyword
    that occurs in the lowercased text, the keyword taken as it is
    written in the catalog. *)
Lemma categorize_article_filter (article_text : string) (sectors : catalog) :
  categorize_article sentences_of article_text sectors
  = map fst (List.filter (sector_matches article_text) sectors).
Proof. unfold categorize_article. simpl. now rewrite categorize_loop. Qed.

Lemma categorize_article_In (article_text : string) (sectors : catalog) (sector : string) :
  In sector (categorize_article sentences_of article_text sectors)
  <-> exists keywords keyword,
        In (sector, keywords) sectors /\ In keyword keywords
        /\ occurs_in keyword (PyStr.lower article_text).
Proof.
  rewrite categorize_article_filter, in_map_iff. split.
  - intros [[s keywords] [Hs Hin]]. simpl in Hs. subst s.
    apply filter_In in Hin as [Hin Hm]. unfold sector_matches in Hm. simpl in Hm.
    apply existsb_exists in Hm as [keyword [Hk Hc]].
    exists keywords, keyword. now rewrite <- contains_spec.
  - intros [keywords [keyword [Hin [Hk Hc]]]].
    exists (sector, keywords). split; [reflexivity|].
    apply filter_In. split; [exact Hin|].
    unfold sector_matches. simpl. apply existsb_exists.
    exists keyword. now rewrite contains_spec.
Qed.

(** Distinct catalog keys give distinct sector names in the result. *)
Lemma categorize_article_NoDup (article_text : string) (sectors : catalog) :
  ODict.wf sectors -> List.NoDup (categorize_article sentences_of article_text sectors).
Proof.
  unfold ODict.wf, ODict.keys. rewrite categorize_article_filter.
  induction sectors as [|entry sectors IH]; simpl; intros Hwf.
  - constructor.
  - apply List.NoDup_cons_iff in Hwf as [Hnotin Hnd].
    destruct (sector_matches article_text entry); simpl; [|now apply IH].
    apply List.NoDup_cons_iff. split; [|now apply IH].
    intros Hin. apply Hnotin.
    apply in_map_iff in Hin as [e [He Hin]]. apply filter_In in Hin as [Hin _].
    apply in_map_iff. now exists e.
Qed.

(** On a catalog of lowercase keywords the code computes the
    classification of the specification. *)
Lemma categorize_article_lowercase (article_text : string) (sectors : catalog) :
  lowercase_keywords sectors ->
  categorize_article sentences_of article_text sectors = classifier_spec article_text sectors.
Proof.
  intros Hlow. rewrite categorize_article_filter. unfold classifier_spec. f_equal.
  apply filter_ext_in. intros [sector keywords] Hin. unfold sector_matches. simpl.
  apply existsb_ext_in. intros keyword Hk. symmetry.
  apply ci_contains_lowercase. exact (Hlow sector keywords keyword Hin Hk).
Qed.

End Classifier.

(** ** The summarizer *)

Lemma slice_stop_nonneg (len stop : Z) :
  0 <= len -> 0 <= stop -> slice_stop len stop = Z.min stop len.
Proof.
  intros Hlen Hstop. unfold slice_stop.
  destruct (Z.ltb_spec stop 0) as [H|_]; [lia|].
  destruct (Z.ltb_spec len stop); lia.
Qed.

Lemma slice_to_nonneg {A : Type} (l : list A) (stop : Z) :
  0 <= stop ->
  slice_to l stop = firstn (Z.to_nat (Z.min stop (Z.of_nat (length l)))) l.
Proof.
  intros H. unfold slice_to. rewrite slice_stop_nonneg; [reflexivity | lia | exact H].
Qed.

Lemma slice_to_length {A : Type} (l : list A) (stop : Z) :
  0 <= stop ->
  Z.of_nat (length (slice_to l stop)) = Z.min stop (Z.of_nat (length l)).
Proof.
  intros H. rewrite slice_to_nonneg by exact H. rewrite length_firstn. lia.
Qed.

(** Cutting a list that was cut at the same bound changes nothing. *)
Lemma slice_to_idem {A : Type} (l : list A) (stop : Z) :
  0 <= stop -> slice_to (slice_to l stop) stop = slice_to l stop.
Proof.
  intros H. rewrite (slice_to_nonneg (slice_to l stop)) by exact H.
  rewrite slice_to_length by exact H.
  rewrite slice_to_nonneg by exact H.
  rewrite firstn_firstn. f_equal. lia.
Qed.

Section Summarizer.

Variable sentences_of : string -> list string.

Lemma summarize_text_no_sentences (text : string) (max_sentences : Z) :
  sentences_of text = [] ->
  summarize_text sentences_of text max_sentences = EmptyString.
Proof.
  intros H. unfold summarize_text, slice_to. simpl. rewrite H.
  now rewrite firstn_nil.
Qed.

(** C3. For a limit [max_sentences >= 0] the summary is the first
    [min(max_sentences, number of sentences)] sentences of the text, in
    their order, joined by one space; it is the empty string when the
    text has no sentence; the limit is 3 when the caller gives none. *)
Theorem summarize_text_first_sentences (text : string) (max_sentences : Z) :
  0 <= max_sentences ->
  summarize_text sentences_of text max_sentences
  = PyStr.join " "
      (firstn (Z.to_nat (Z.min max_sentences (Z.of_nat (length (sentences_of text)))))
         (sentences_of text))
  /\ (sentences_of text = [] ->
      summarize_text sentences_of text max_sentences = EmptyString)
  /\ default_max_sentences = 3.
Proof.
  intros H. split; [|split].
  - unfold summarize_text. simpl. now rewrite slice_to_nonneg.
  - intros Hnil. now apply summarize_text_no_sentences.
  - reflexivity.
Qed.

(** C9. Two texts with the same sentence sequence get, at the same limit,
    the same summary: the result of the summarizer is determined by the
    sentence sequence and the limit. *)
Theorem summarize_text_same_result (text1 text2 : string) (max_sentences : Z) :
  sentences_of text1 = sentences_of text2 ->
  summarize_text sentences_of text1 max_sentences
  = summarize_text sentences_of text2 max_sentences.
Proof. intros H. unfold summarize_text. simpl. now rewrite H. Qed.

End Summarizer.

(** ** Insertion-ordered dictionaries *)

Section ODictFacts.

Context {V : Type}.
Implicit Types (d : list (string * V)) (k : string) (v : V).

Lemma odict_get_None d k : ODict.get d k = None <-> ~ In k (ODict.keys d).
Proof.
  induction d as [|[k' v'] d IH]; simpl.
  - tauto.
  - destruct (String.eqb_spec k' k) as [->|Hne].
    + split; [discriminate | intros H; exfalso; apply H; now left].
    + rewrite IH. tauto.
Qed.

Lemma odict_mem_keys d k : ODict.mem d k = true <-> In k (ODict.keys d).
Proof.
  unfold ODict.mem. destruct (ODict.get d k) eqn:E.
  - split; [intros _ | reflexivity].
    destruct (in_dec String.string_dec k (ODict.keys d)) as [Hin|Hnot]; [exact Hin|].
    apply odict_get_None in Hnot. congruence.
  - apply odict_get_None in E. split; [discriminate | contradiction].
Qed.

(** A new key is appended. *)
Lemma odict_set_fresh d k v : ~ In k (ODict.keys d) -> ODict.set d k v = d ++ [(k, v)].
Proof.
  induction d as [|[k' v'] d IH]; simpl; intros H; [reflexivity|].
  destruct (String.eqb_spec k' k) as [->|Hne]; [tauto|].
  rewrite IH; tauto.
Qed.

Lemma odict_set_keys d k v k' :
  In k' (ODict.keys (ODict.set d k v)) <-> In k' (ODict.keys d) \/ k' = k.
Proof.
  induction d as [|[k0 v0] d IH]; simpl.
  - intuition congruence.
  - destruct (String.eqb_spec k0 k) as [->|Hne]; simpl.
    + intuition congruence.
    + rewrite IH. tauto.
Qed.

Lemma odict_set_wf d k v : ODict.wf d -> ODict.wf (ODict.set d k v).
Proof.
  unfold ODict.wf. induction d as [|[k0 v0] d IH]; simpl; intros Hwf.
  - constructor; [intros [] | constructor].
  - apply List.NoDup_cons_iff in Hwf as [Hnotin Hnd].
    destruct (String.eqb_spec k0 k) as [->|Hne]; simpl.
    + now apply List.NoDup_cons_iff.
    + apply List.NoDup_cons_iff. split; [|now apply IH].
      intros Hin. apply (odict_set_keys d k v k0) in Hin as [Hin | ->]; tauto.
Qed.

Lemma odict_alter_keys d k (f : V -> V) : ODict.keys (ODict.alter d k f) = ODict.keys d.
Proof.
  induction d as [|[k0 v0] d IH]; simpl; [reflexivity|].
  destruct (String.eqb k0 k); simpl; [reflexivity | now rewrite IH].
Qed.

Lemma odict_map_absent d k (f : V -> V) :
  ~ In k (ODict.keys d) ->
  map (fun e => if String.eqb (fst e) k then (fst e, f (snd e)) else e) d = d.
Proof.
  induction d as [|[k0 v0] d IH]; simpl; intros H; [reflexivity|].
  destruct (String.eqb_spec k0 k) as [->|Hne]; [tauto|].
  rewrite IH; tauto.
Qed.

(** Under distinct keys, [if k in d: d[k] = f(d[k])] maps over the items. *)
Lemma odict_alter_map d k (f : V -> V) :
  ODict.wf d ->
  (if ODict.mem d k then ODict.alter d k f else d)
  = map (fun e => if String.eqb (fst e) k then (fst e, f (snd e)) else e) d.
Proof.
  unfold ODict.wf. induction d as [|[k0 v0] d IH]; intros Hwf; [reflexivity|].
  simpl in Hwf. apply List.NoDup_cons_iff in Hwf as [Hnotin Hnd].
  unfold ODict.mem. simpl. destruct (String.eqb_spec k0 k) as [->|Hne].
  - now rewrite odict_map_absent.
  - specialize (IH Hnd). unfold ODict.mem in IH.
    destruct (ODict.get d k); now rewrite <- IH.
Qed.

End ODictFacts.

(** ** Grouping by sector *)

Lemma keys_map_values {V : Type} (g : string * V -> V) (d : list (string * V)) :
  ODict.keys (map (fun e => (fst e, g e)) d) = ODict.keys d.
Proof. unfold ODict.keys. rewrite map_map. reflexivity. Qed.

Lemma keys_map_cond {V : Type} (p : string * V -> bool) (g : string * V -> V)
    (d : list (string * V)) :
  ODict.keys (map (fun e => if p e then (fst e, g e) else e) d) = ODict.keys d.
Proof.
  unfold ODict.keys. rewrite map_map. apply map_ext. intros e. now destruct (p e).
Qed.

Lemma add_to_groups_cons (r : loc) (s : string) (tags : list string)
    (groups : list (string * list loc)) :
  add_to_groups r groups (s :: tags)
  = add_to_groups r
      (if ODict.mem groups s
       then ODict.alter groups s (fun bucket => bucket ++ [r])
       else groups)
      tags.
Proof. reflexivity. Qed.

(** The inner loop adds the article once for each of its sector names that
    is a key, and skips the names that are no key. *)
Lemma add_to_groups_map (r : loc) (tags : list string) (groups : list (string * list loc)) :
  ODict.wf groups ->
  add_to_groups r groups tags = map (fun e => (fst e, snd e ++ hits r (fst e) tags)) groups.
Proof.
  revert groups. induction tags as [|s tags IH]; intros groups Hwf.
  - unfold add_to_groups, hits. simpl. rewrite <- (map_id groups) at 1.
    apply map_ext. intros [k b]. simpl. now rewrite app_nil_r.
  - rewrite add_to_groups_cons, odict_alter_map by exact Hwf. rewrite IH.
    + rewrite map_map. apply map_ext. intros [k b]. simpl.
      destruct (String.eqb k s); simpl; [now rewrite <- app_assoc | reflexivity].
    + unfold ODict.wf.
      rewrite (keys_map_cond (fun e => String.eqb (fst e) s) (fun e => snd e ++ [r])).
      exact Hwf.
Qed.

Lemma group_article_run (groups : list (string * list loc)) (r : loc) (st : store)
    (tags : list string) :
  tags_of st r = Some tags ->
  group_article groups r st = (Returned (add_to_groups r groups tags), st).
Proof.
  unfold tags_of, group_article, bind, getitem. intros H.
  destruct (st r !! "sectors") as [[| |l]|]; try discriminate.
  injection H as ->. reflexivity.
Qed.

(** The outer loop, from any dictionary of distinct keys. *)
Lemma group_loop_run (processed : list loc) (groups : list (string * list loc)) (st : store) :
  ODict.wf groups ->
  (forall r, In r processed -> tags_of st r <> None) ->
  for_each processed group_article groups st
  = (Returned
       (map (fun e => (fst e,
                       snd e ++ flat_map (fun r => hits r (fst e) (tags_or_nil st r)) processed))
          groups),
     st).
Proof.
  revert groups. induction processed as [|x processed IH]; intros groups Hwf Htags.
  - simpl. unfold ret. f_equal. f_equal. rewrite <- (map_id groups) at 1.
    apply map_ext. intros [k b]. simpl. now rewrite app_nil_r.
  - simpl. unfold bind at 1.
    destruct (tags_of st x) as [tags|] eqn:Hx; [|exfalso; apply (Htags x); [now left | exact Hx]].
    rewrite (group_article_run groups x st tags Hx).
    rewrite add_to_groups_map by exact Hwf.
    rewrite IH.
    + f_equal. f_equal. rewrite map_map. apply map_ext. intros [k b]. simpl.
      unfold tags_or_nil at 2. rewrite Hx. now rewrite <- app_assoc.
    + unfold ODict.wf. rewrite keys_map_values. exact Hwf.
    + intros r Hr. apply Htags. now right.
Qed.

Lemma empty_groups_loop (ks : list string) (acc : list (string * list loc)) :
  ODict.wf acc ->
  ODict.wf (fold_left (fun d sector => ODict.set d sector []) ks acc)
  /\ forall k, In k (ODict.keys (fold_left (fun d sector => ODict.set d sector []) ks acc))
               -> In k (ODict.keys acc) \/ In k ks.
Proof.
  revert acc. induction ks as [|s ks IH]; intros acc Hwf; simpl.
  - split; [exact Hwf | tauto].
  - destruct (IH (ODict.set acc s []) (odict_set_wf acc s [] Hwf)) as [H1 H2].
    split; [exact H1|]. intros k Hk. apply H2 in Hk as [Hk|Hk]; [|tauto].
    apply odict_set_keys in Hk. intuition.
Qed.

Lemma empty_groups_wf (SECTORS : catalog) : ODict.wf (empty_groups SECTORS).
Proof. apply empty_groups_loop. constructor. Qed.

Lemma empty_groups_keys (SECTORS : catalog) (k : string) :
  In k (ODict.keys (empty_groups SECTORS)) -> In k (ODict.keys SECTORS).
Proof.
  intros H. apply empty_groups_loop in H as [[]|H]; [exact H | constructor].
Qed.

Lemma fold_set_fresh {A V : Type} (key : A -> string) (val : A -> V) (keep : A -> bool)
    (l : list A) (acc : list (string * V)) :
  List.NoDup (ODict.keys acc ++ map key l) ->
  fold_left (fun d x => if keep x then ODict.set d (key x) (val x) else d) l acc
  = acc ++ map (fun x => (key x, val x)) (List.filter keep l).
Proof.
  revert acc. induction l as [|x l IH]; intros acc Hnd; simpl.
  - now rewrite app_nil_r.
  - simpl in Hnd. destruct (keep x); simpl.
    + rewrite odict_set_fresh.
      * rewrite IH; [now rewrite <- app_assoc|].
        unfold ODict.keys. rewrite map_app. simpl. now rewrite <- app_assoc.
      * apply NoDup_remove_2 in Hnd. intros Hin. apply Hnd. apply in_app_iff. now left.
    + apply IH. now apply NoDup_remove_1 in Hnd.
Qed.

(** On a catalog of distinct keys the comprehension lists the keys in order. *)
Lemma empty_groups_map (SECTORS : catalog) :
  ODict.wf SECTORS -> empty_groups SECTORS = map (fun k => (k, [])) (ODict.keys SECTORS).
Proof.
  intros Hwf. unfold empty_groups.
  rewrite (fold_set_fresh (fun k => k) (fun _ => []) (fun _ => true)).
  - simpl. f_equal. induction (ODict.keys SECTORS) as [|k ks IH]; simpl; [reflexivity|].
    now rewrite IH.
  - simpl. now rewrite map_id.
Qed.

(** Dropping the empty buckets of a dictionary of distinct keys is a filter. *)
Lemma drop_empty_filter (d : list (string * list loc)) :
  ODict.wf d -> drop_empty d = List.filter (fun e => truthy (snd e)) d.
Proof.
  intros Hwf. unfold drop_empty.
  transitivity (fold_left
                  (fun out (e : string * list loc) =>
                     if truthy (snd e) then ODict.set out (fst e) (snd e) else out) d []).
  - generalize (@nil (string * list loc)). induction d as [|[k b] d IH]; intros acc; simpl.
    + reflexivity.
    + apply IH. unfold ODict.wf in *. simpl in Hwf. now apply List.NoDup_cons_iff in Hwf.
  - rewrite (fold_set_fresh fst snd (fun e => truthy (snd e))) by exact Hwf.
    simpl. rewrite <- (map_id (List.filter _ d)) at 2. apply map_ext. now intros [k b].
Qed.

Lemma odict_set_In {V : Type} (d : list (string * V)) (k : string) (v : V) (e : string * V) :
  In e (ODict.set d k v) -> In e d \/ e = (k, v).
Proof.
  induction d as [|[k0 v0] d IH]; simpl.
  - intuition.
  - destruct (String.eqb_spec k0 k) as [->|Hne]; simpl; intuition.
Qed.

Lemma empty_groups_values (SECTORS : catalog) (e : string * list loc) :
  In e (empty_groups SECTORS) -> snd e = [].
Proof.
  unfold empty_groups.
  assert (H : forall ks (acc : list (string * list loc)),
             (forall e, In e acc -> snd e = []) ->
             forall e, In e (fold_left (fun d sector => ODict.set d sector []) ks acc) ->
                       snd e = []).
  { induction ks as [|s ks IH]; intros acc Hacc e0; simpl; [apply Hacc|].
    apply IH. intros e1 He1. apply odict_set_In in He1 as [He1 | ->]; [now apply Hacc|].
    reflexivity. }
  apply H. intros e0 [].
Qed.

(** The grouping returns, whatever the sector names of the articles; the
    payload holds, for each key the comprehension made, the entries the
    articles add under it, the keys with no entry left out. *)
Lemma filtered_run (SECTORS : catalog) (processed : list loc) (st : store) :
  (forall r, In r processed -> tags_of st r <> None) ->
  filtered_articles_by_sector SECTORS processed st
  = (Returned
       (List.filter (fun e => truthy (snd e))
          (map (fun e => (fst e, flat_map (fun r => hits r (fst e) (tags_or_nil st r)) processed))
             (empty_groups SECTORS))),
     st).
Proof.
  intros Htags. unfold filtered_articles_by_sector, articles_by_sector, bind.
  rewrite group_loop_run by (exact Htags || apply empty_groups_wf).
  unfold ret. f_equal. f_equal.
  rewrite drop_empty_filter.
  - f_equal. apply map_ext_in. intros e He.
    now rewrite (empty_groups_values SECTORS e He).
  - unfold ODict.wf. rewrite keys_map_values. apply empty_groups_wf.
Qed.

Lemma filter_keys_incl {V : Type} (p : string * V -> bool) (d : list (string * V)) (k : string) :
  In k (ODict.keys (List.filter p d)) -> In k (ODict.keys d).
Proof.
  unfold ODict.keys. rewrite !in_map_iff. intros [e [He Hin]].
  apply filter_In in Hin as [Hin _]. now exists e.
Qed.

Lemma hits_In (r r' : loc) (k : string) (tags : list string) :
  In r' (hits r k tags) -> r' = r /\ In k tags.
Proof.
  unfold hits. rewrite in_flat_map. intros [s [Hs Hin]].
  destruct (String.eqb_spec k s) as [->|Hne]; [|destruct Hin].
  destruct Hin as [<-|[]]. now split.
Qed.

Lemma existsb_eqb_In (k : string) (tags : list string) :
  existsb (String.eqb k) tags = true <-> In k tags.
Proof.
  rewrite existsb_exists. split.
  - intros [s [Hs He]]. apply String.eqb_eq in He. now subst.
  - intros H. exists k. split; [exact H | apply String.eqb_refl].
Qed.

(** An article with distinct sector names adds itself at most once. *)
Lemma hits_nodup (r : loc) (k : string) (tags : list string) :
  List.NoDup tags -> hits r k tags = if existsb (String.eqb k) tags then [r] else [].
Proof.
  unfold hits. induction tags as [|s tags IH]; simpl; intros Hnd; [reflexivity|].
  apply List.NoDup_cons_iff in Hnd as [Hnotin Hnd]. rewrite (IH Hnd).
  destruct (String.eqb_spec k s) as [->|Hne]; simpl; [|reflexivity].
  destruct (existsb (String.eqb s) tags) eqn:E; [|reflexivity].
  apply existsb_eqb_In in E. contradiction.
Qed.

Lemma flat_map_filter {A : Type} (p : A -> bool) (l : list A) :
  flat_map (fun x => if p x then [x] else []) l = List.filter p l.
Proof.
  induction l as [|x l IH]; simpl; [reflexivity|]. rewrite IH. now destruct (p x).
Qed.

Lemma bucket_filter (st : store) (k : string) (processed : list loc) :
  (forall r, In r processed -> List.NoDup (tags_or_nil st r)) ->
  flat_map (fun r => hits r k (tags_or_nil st r)) processed
  = List.filter (has_tag st k) processed.
Proof.
  induction processed as [|x processed IH]; simpl; intros Hnd; [reflexivity|].
  rewrite IH by (intros r Hr; apply Hnd; now right).
  rewrite hits_nodup by (apply Hnd; now left).
  unfold has_tag at 2. now destruct (existsb _ _).
Qed.

(** C2. For a catalog (a dictionary: distinct keys) and processed articles
    (each with a list of distinct sector names), the grouping returns the
    payload that lists, in catalog order, each sector whose bucket is not
    empty, the bucket holding, in input order, exactly the articles whose
    sector names include the sector; an article is in the bucket of each of
    its sectors that is a catalog key, as often as it is in the input. *)
Theorem aggregator_buckets (SECTORS : catalog) (processed : list loc) (st : store) :
  ODict.wf SECTORS ->
  (forall r, In r processed -> exists tags, tags_of st r = Some tags /\ List.NoDup tags) ->
  exists payload : list (string * list loc),
    filtered_articles_by_sector SECTORS processed st = (Returned payload, st)
    /\ payload
       = List.filter (fun e => truthy (snd e))
           (map (fun sector => (sector, List.filter (has_tag st sector) processed))
              (ODict.keys SECTORS))
    /\ (forall sector r,
          In sector (ODict.keys SECTORS) -> In r processed -> has_tag st sector r = true ->
          exists bucket,
            In (sector, bucket) payload
            /\ count_occ Nat.eq_dec bucket r = count_occ Nat.eq_dec processed r).
Proof.
  intros Hwf Htags.
  assert (Hsome : forall r, In r processed -> tags_of st r <> None).
  { intros r Hr. destruct (Htags r Hr) as [tags [-> _]]. discriminate. }
  assert (Hnd : forall r, In r processed -> List.NoDup (tags_or_nil st r)).
  { intros r Hr. destruct (Htags r Hr) as [tags [H Hn]]. unfold tags_or_nil. now rewrite H. }
  assert (Heq : List.filter (fun e => truthy (snd e))
                  (map (fun e => (fst e,
                                  flat_map (fun r => hits r (fst e) (tags_or_nil st r)) processed))
                     (empty_groups SECTORS))
                = List.filter (fun e => truthy (snd e))
                    (map (fun sector => (sector, List.filter (has_tag st sector) processed))
                       (ODict.keys SECTORS))).
  { rewrite empty_groups_map by exact Hwf. rewrite map_map. f_equal.
    apply map_ext. intros k. simpl. now rewrite bucket_filter. }
  eexists. split; [|split].
  - rewrite filtered_run by exact Hsome. rewrite Heq. reflexivity.
  - reflexivity.
  - intros sector r Hk Hr Htag.
    exists (List.filter (has_tag st sector) processed). split.
    + apply filter_In. split.
      * apply in_map_iff. now exists sector.
      * simpl. destruct (List.filter (has_tag st sector) processed) eqn:E; [|reflexivity].
        assert (Hin : In r (List.filter (has_tag st sector) processed))
          by (apply filter_In; now split).
        rewrite E in Hin. destruct Hin.
    + clear -Htag. induction processed as [|x processed IH]; simpl; [reflexivity|].
      destruct (Nat.eq_dec x r) as [->|Hne].
      * rewrite Htag. simpl. destruct (Nat.eq_dec r r); [now rewrite IH | contradiction].
      * destruct (has_tag st sector x); simpl; [|exact IH].
        destruct (Nat.eq_dec x r); [contradiction | exact IH].
Qed.

(** The members of a bucket come from the list grouped. *)
Lemma payload_run_members (SECTORS : catalog) (processed : list loc) (st : store) :
  (forall r, In r processed -> tags_of st r <> None) ->
  exists payload : list (string * list loc),
    filtered_articles_by_sector SECTORS processed st = (Returned payload, st)
    /\ (forall sector bucket r,
          In (sector, bucket) payload -> In r bucket ->
          In r processed /\ In sector (tags_or_nil st r)).
Proof.
  intros Htags. eexists. split; [now apply filtered_run|].
  intros sector bucket r Hin Hr. apply filter_In in Hin as [Hin _].
  apply in_map_iff in Hin as [e [He _]]. injection He as <- <-.
  apply in_flat_map in Hr as [x [Hx Hr]]. apply hits_In in Hr as [-> Hk].
  now split.
Qed.

(** C10. Whatever sector names the processed articles carry, the grouping
    raises nothing, and every key of the payload is a key of the catalog:
    an article is in a bucket only under a key that is one of its sector
    names, and a sector name that is no catalog key makes no bucket. *)
Theorem payload_keys_in_catalog (SECTORS : catalog) (processed : list loc) (st : store) :
  (forall r, In r processed -> tags_of st r <> None) ->
  exists payload : list (string * list loc),
    filtered_articles_by_sector SECTORS processed st = (Returned payload, st)
    /\ (forall sector, In sector (ODict.keys payload) -> In sector (ODict.keys SECTORS))
    /\ (forall sector bucket r,
          In (sector, bucket) payload -> In r bucket ->
          In r processed /\ has_tag st sector r = true).
Proof.
  intros Htags. eexists. split; [|split].
  - apply filtered_run. exact Htags.
  - intros sector Hin. apply filter_keys_incl in Hin.
    rewrite keys_map_values in Hin. now apply empty_groups_keys.
  - intros sector bucket r Hin Hr. apply filter_In in Hin as [Hin _].
    apply in_map_iff in Hin as [e [He _]]. injection He as <- <-.
    apply in_flat_map in Hr as [x [Hx Hr]]. apply hits_In in Hr as [-> Hk].
    split; [exact Hx|]. unfold has_tag. now apply existsb_eqb_In.
Qed.


(** ** Processing the articles *)

Lemma store_set_same (st : store) (r : loc) (d : gmap string pyval) :
  store_set st r d r = d.
Proof. unfold store_set. now rewrite Nat.eqb_refl. Qed.

Lemma store_set_other (st : store) (r r' : loc) (d : gmap string pyval) :
  r' <> r -> store_set st r d r' = st r'.
Proof.
  intros H. unfold store_set. destruct (Nat.eqb_spec r' r); [contradiction | reflexivity].
Qed.

Section Processing.

Variable sentences_of : string -> list string.

Lemma title_and_summary_of_run (r : loc) (st : store) :
  title_and_summary_of r st = (Returned (article_text (st r)), st).
Proof. reflexivity. Qed.

(** The assignments leave the title and the summary, hence the text. *)
Lemma article_text_enrich (sectors : catalog) (a : gmap string pyval) :
  article_text (enrich sentences_of sectors a) = article_text a.
Proof.
  unfold article_text, enrich.
  rewrite !lookup_insert_ne by discriminate. reflexivity.
Qed.

Lemma enrich_idem (sectors : catalog) (a : gmap string pyval) :
  enrich sentences_of sectors (enrich sentences_of sectors a) = enrich sentences_of sectors a.
Proof.
  unfold enrich at 1. rewrite article_text_enrich. unfold enrich.
  apply map_eq. intros k.
  destruct (decide (k = "generated_summary")) as [->|H1].
  - now rewrite !lookup_insert_eq.
  - rewrite !(lookup_insert_ne _ "generated_summary") by congruence.
    destruct (decide (k = "sectors")) as [->|H2].
    + now rewrite !lookup_insert_eq.
    + now rewrite !lookup_insert_ne by congruence.
Qed.

Lemma enrich_other_keys (sectors : catalog) (a : gmap string pyval) (k : string) :
  k <> "sectors" -> k <> "generated_summary" ->
  enrich sentences_of sectors a !! k = a !! k.
Proof. intros H1 H2. unfold enrich. now rewrite !lookup_insert_ne by congruence. Qed.

Lemma enrich_at_lookup (sectors : catalog) (r r' : loc) (st : store) :
  enrich_at sentences_of sectors r st r' = if Nat.eqb r' r then enrich sentences_of sectors (st r) else st r'.
Proof.
  unfold enrich_at, enrich. cbv zeta.
  destruct (Nat.eqb_spec r' r) as [->|Hne].
  - now rewrite !store_set_same.
  - now rewrite !store_set_other.
Qed.

(** One turn of the loop. *)
Lemma process_article_run (sectors : catalog) (acc : list loc) (r : loc) (st : store) :
  process_article sentences_of sectors acc r st
  = if relevant sentences_of sectors (st r)
    then (Returned (acc ++ [r]), enrich_at sentences_of sectors r st)
    else (Returned acc, st).
Proof.
  unfold process_article, bind. rewrite title_and_summary_of_run.
  unfold relevant. destruct (truthy _) eqn:E; reflexivity.
Qed.

(** The loop: the articles kept, and the store it leaves. *)
Lemma process_loop_run (sectors : catalog) (articles acc : list loc) (st : store) :
  exists st' : store,
    for_each articles (process_article sentences_of sectors) acc st
    = (Returned (acc ++ List.filter (fun r => relevant sentences_of sectors (st r)) articles), st')
    /\ forall r : loc,
         st' r = if relevant sentences_of sectors (st r) && existsb (Nat.eqb r) articles
                 then enrich sentences_of sectors (st r)
                 else st r.
Proof.
  revert acc st. induction articles as [|x articles IH]; intros acc st.
  - exists st. simpl. split; [now rewrite app_nil_r|].
    intros r. now rewrite andb_false_r.
  - simpl. unfold bind at 1. rewrite process_article_run.
    destruct (relevant sentences_of sectors (st x)) eqn:Hx.
    + destruct (IH (acc ++ [x]) (enrich_at sentences_of sectors x st)) as [st' [Hrun Hst]].
      assert (Hrel : forall r, relevant sentences_of sectors (enrich_at sentences_of sectors x st r)
                               = relevant sentences_of sectors (st r)).
      { intros r. rewrite enrich_at_lookup. destruct (Nat.eqb_spec r x) as [->|_];
          [|reflexivity].
        unfold relevant. now rewrite article_text_enrich. }
      exists st'. split.
      * rewrite Hrun, <- app_assoc. simpl.
        rewrite (filter_ext _ _ Hrel). reflexivity.
      * intros r. rewrite Hst, Hrel, enrich_at_lookup.
        destruct (Nat.eqb_spec r x) as [->|Hne]; simpl.
        -- rewrite Hx. simpl. now rewrite enrich_idem, Tauto.if_same.
        -- reflexivity.
    + destruct (IH acc st) as [st' [Hrun Hst]]. exists st'. split; [exact Hrun|].
      intros r. rewrite Hst. destruct (Nat.eqb_spec r x) as [->|Hne]; simpl.
      * now rewrite Hx.
      * reflexivity.
Qed.

Lemma process_articles_run (sectors : catalog) (articles : list loc) (st : store) :
  exists st' : store,
    process_articles sentences_of articles sectors st
    = (Returned (List.filter (fun r => relevant sentences_of sectors (st r)) articles), st')
    /\ forall r : loc,
         st' r = if relevant sentences_of sectors (st r) && existsb (Nat.eqb r) articles
                 then enrich sentences_of sectors (st r)
                 else st r.
Proof. apply (process_loop_run sectors articles [] st). Qed.

End Processing.

(** ** The pipeline *)

Lemma existsb_nat_In (r : loc) (l : list loc) : existsb (Nat.eqb r) l = true <-> In r l.
Proof.
  rewrite existsb_exists. split.
  - intros [x [Hx He]]. apply Nat.eqb_eq in He. now subst.
  - intros H. exists r. split; [exact H | apply Nat.eqb_refl].
Qed.

Section PipelineFacts.

Variable sentences_of : string -> list string.

(** No keyword in the lowercased text: no sector. *)
Lemma categorize_article_none (article_text : string) (sectors : catalog) :
  (forall sector keywords keyword,
      In (sector, keywords) sectors -> In keyword keywords ->
      ~ occurs_in keyword (PyStr.lower article_text)) ->
  categorize_article sentences_of article_text sectors = [].
Proof.
  intros H. destruct (categorize_article sentences_of article_text sectors) as [|s l] eqn:E;
    [reflexivity|].
  assert (Hin : In s (categorize_article sentences_of article_text sectors))
    by (rewrite E; now left).
  apply categorize_article_In in Hin as [keywords [keyword [H1 [H2 H3]]]].
  exfalso. exact (H s keywords keyword H1 H2 H3).
Qed.

(** What [process_articles] returns and the store it leaves. *)
Lemma process_articles_result (sectors : catalog) (articles : list loc) (st : store) :
  exists (processed : list loc) (st' : store),
    process_articles sentences_of articles sectors st = (Returned processed, st')
    /\ processed = List.filter (fun r => relevant sentences_of sectors (st r)) articles
    /\ (forall r, In r processed -> st' r = enrich sentences_of sectors (st r))
    /\ (forall r, ~ In r processed -> st' r = st r).
Proof.
  destruct (process_articles_run sentences_of sectors articles st) as [st' [Hrun Hst]].
  exists (List.filter (fun r => relevant sentences_of sectors (st r)) articles), st'.
  split; [exact Hrun|]. split; [reflexivity|]. split.
  - intros r Hr. apply filter_In in Hr as [Hin Hrel].
    rewrite Hst, Hrel. apply existsb_nat_In in Hin. now rewrite Hin.
  - intros r Hr. rewrite Hst.
    destruct (relevant sentences_of sectors (st r)) eqn:Hrel; [|reflexivity].
    destruct (existsb (Nat.eqb r) articles) eqn:Hin; [|reflexivity].
    exfalso. apply Hr. apply filter_In. apply existsb_nat_In in Hin. now split.
Qed.

Lemma tags_of_enrich (sectors : catalog) (st : store) (r : loc) (a : gmap string pyval) :
  st r = enrich sentences_of sectors a ->
  tags_of st r = Some (categorize_article sentences_of (article_text a) sectors).
Proof.
  intros H. unfold tags_of. rewrite H. unfold enrich.
  rewrite lookup_insert_ne by discriminate. now rewrite lookup_insert_eq.
Qed.

(** C4. An article whose lowercased title-and-summary text holds no
    keyword of any sector of the catalog is not in the list
    [process_articles] returns, is left as it was (it gets no [sectors]
    and no [generated_summary]), and is in no bucket of the payload
    grouped from that list. *)
Theorem unmatched_article_excluded (sectors : catalog) (articles : list loc)
    (st : store) (r : loc) :
  (forall sector keywords keyword,
      In (sector, keywords) sectors -> In keyword keywords ->
      ~ occurs_in keyword (PyStr.lower (article_text (st r)))) ->
  exists (processed : list loc) (st' : store) (payload : list (string * list loc)),
    process_articles sentences_of articles sectors st = (Returned processed, st')
    /\ ~ In r processed
    /\ st' r = st r
    /\ filtered_articles_by_sector sectors processed st' = (Returned payload, st')
    /\ forall sector bucket, In (sector, bucket) payload -> ~ In r bucket.
Proof.
  intros Hno.
  destruct (process_articles_result sectors articles st)
    as [processed [st' [Hrun [Hproc [Hin Hout]]]]].
  assert (Hr : ~ In r processed).
  { rewrite Hproc. intros H. apply filter_In in H as [_ H]. unfold relevant in H.
    now rewrite categorize_article_none in H. }
  assert (Htags : forall x, In x processed -> tags_of st' x <> None).
  { intros x Hx. rewrite (tags_of_enrich sectors st' x (st x) (Hin x Hx)). discriminate. }
  destruct (payload_run_members sectors processed st' Htags) as [payload [Hp Hmem]].
  exists processed, st', payload. repeat split; auto.
  intros sector bucket Hb Hrb. apply Hr. exact (proj1 (Hmem sector bucket r Hb Hrb)).
Qed.

(** C8, as amended. [process_articles] raises nothing; it leaves every
    entry of every article other than [sectors] and [generated_summary],
    and leaves the articles it does not return as they were; to each
    article it returns it assigns [sectors] and [generated_summary] in
    place, and the list it returns holds the references it was given.
    The grouping reads the store and leaves it. *)
Theorem process_articles_frame (sectors : catalog) (articles : list loc) (st : store) :
  exists (processed : list loc) (st' : store),
    process_articles sentences_of articles sectors st = (Returned processed, st')
    /\ (forall r key, key <> "sectors" -> key <> "generated_summary" ->
                      st' r !! key = st r !! key)
    /\ (forall r, ~ In r processed -> st' r = st r)
    /\ (forall r, In r processed ->
          In r articles
          /\ st' r !! "sectors"
             = Some (PList (categorize_article sentences_of (article_text (st r)) sectors))
          /\ st' r !! "generated_summary"
             = Some (PStr (summarize_text sentences_of (article_text (st r))
                             default_max_sentences)))
    /\ (forall SECTORS, snd (filtered_articles_by_sector SECTORS processed st') = st').
Proof.
  destruct (process_articles_result sectors articles st)
    as [processed [st' [Hrun [Hproc [Hin Hout]]]]].
  exists processed, st'. split; [exact Hrun|]. split; [|split; [exact Hout|split]].
  - intros r key H1 H2. destruct (in_dec Nat.eq_dec r processed) as [Hr|Hr].
    + rewrite (Hin r Hr). now apply enrich_other_keys.
    + now rewrite (Hout r Hr).
  - intros r Hr. rewrite (Hin r Hr). split; [|split].
    + rewrite Hproc in Hr. now apply filter_In in Hr.
    + unfold enrich. rewrite lookup_insert_ne by discriminate. now rewrite lookup_insert_eq.
    + unfold enrich. now rewrite lookup_insert_eq.
  - intros SECTORS.
    assert (Htags : forall x, In x processed -> tags_of st' x <> None).
    { intros x Hx. rewrite (tags_of_enrich sectors st' x (st x) (Hin x Hx)). discriminate. }
    now rewrite filtered_run.
Qed.

End PipelineFacts.

(** ** Keywords with a capital never match *)

Lemma lower_length (s : string) : String.length (PyStr.lower s) = String.length s.
Proof. induction s as [|c s IH]; simpl; [reflexivity | now rewrite IH]. Qed.

Lemma append_inj_length (a a' b b' : string) :
  String.length a = String.length a' -> a +:+ b = a' +:+ b' -> a = a' /\ b = b'.
Proof.
  revert a'. induction a as [|c a IH]; intros [|c' a'] Hlen Heq; simpl in Hlen;
    try discriminate; str_simpl.
  - now split.
  - injection Heq as -> Heq. injection Hlen as Hlen.
    destruct (IH a' Hlen Heq) as [-> ->]. now split.
Qed.

(** The text searched is lowercase, so a keyword found in it is lowercase:
    a catalog keyword written with a capital ([AI], [IPO], [FDA], ...) is
    found in no text. *)
Lemma contains_lower_lowercase (text kw : string) :
  PyStr.contains (PyStr.lower text) kw = true -> PyStr.lower kw = kw.
Proof.
  rewrite contains_spec. intros [pre [post H]].
  assert (H' := f_equal PyStr.lower H).
  rewrite lower_idem, !lower_app, H in H'.
  apply append_inj_length in H' as [_ H']; [|now rewrite lower_length].
  apply append_inj_length in H' as [H' _]; [|now rewrite lower_length].
  now symmetry.
Qed.

Section Verdicts.

Variable sentences_of : string -> list string.

(** With no sector in the catalog the loop keeps nothing and writes
    nothing. *)
Lemma process_loop_empty_catalog (articles acc : list loc) (st : store) :
  for_each articles (process_article sentences_of []) acc st = (Returned acc, st).
Proof.
  revert acc. induction articles as [|x articles IH]; intros acc; [reflexivity|].
  simpl. unfold bind at 1. rewrite process_article_run. simpl. apply IH.
Qed.

(** C7, as amended. An empty catalog is accepted: the classifier returns
    the empty sequence for every text, [process_articles] returns the
    empty list and leaves the store, and the run ends with no payload.
    Only a catalog that is [None] makes the classifier raise, the
    [AttributeError] of [sectors.items()]. *)
Theorem empty_catalog_accepted (text : string) (articles : list loc) (st : store) :
  categorize_article_call sentences_of text (Some []) = Returned []
  /\ categorize_article_call sentences_of text None = Raised AttributeError
  /\ process_articles sentences_of articles [] st = (Returned [], st)
  /\ newsletter_payload sentences_of [] articles st = (Returned None, st).
Proof.
  repeat split.
  - apply process_loop_empty_catalog.
  - unfold newsletter_payload, bind, process_articles.
    now rewrite process_loop_empty_catalog.
Qed.

(** The text of an article whose title and summary are empty strings. *)
Lemma empty_article_text (a : gmap string pyval) :
  a !! "title" = Some (PStr "") -> a !! "summary" = Some (PStr "") ->
  article_text a = ". ".
Proof. intros Ht Hs. unfold article_text. now rewrite Ht, Hs. Qed.

(** Its summary is what the segmenter makes of that text: empty exactly
    when the sentences it yields join to the empty string. *)
Lemma empty_article_summary (a : gmap string pyval) :
  a !! "title" = Some (PStr "") -> a !! "summary" = Some (PStr "") ->
  summarize_text sentences_of (article_text a) default_max_sentences
  = PyStr.join " " (slice_to (sentences_of ". ") 3).
Proof. intros Ht Hs. now rewrite empty_article_text. Qed.

End Verdicts.

(** The grouping of the specification's example: catalog order
    [Tech, Finance], one article tagged [Finance], one [Tech, Finance]. *)
Example aggregator_example :
  fst (filtered_articles_by_sector Sample.two_sectors [0%nat; 1%nat] Sample.tagged)
  = Returned [("Tech", [1%nat]); ("Finance", [0%nat; 1%nat])].
Proof. vm_compute. reflexivity. Qed.

(** The end-to-end scenario of the specification, with the sample
    segmenter. *)
Example end_to_end_example :
  let st := Sample.store_of
              (Sample.article (PStr "Tech firm raises funding")
                 (PStr "A startup closed a funding round.")) in
  let run := newsletter_payload Sample.sentences [("Technology", ["tech"; "startup"])]
               [0%nat] st in
  fst run = Returned (Some [("Technology", [0%nat])])
  /\ snd run 0%nat !! "sectors" = Some (PList ["Technology"])
  /\ snd run 0%nat !! "generated_summary"
     = Some (PStr "Tech firm raises funding. A startup closed a funding round.").
Proof. vm_compute. repeat split. Qed.

(** The substring example of the specification. *)
Example scary_is_automotive :
  categorize_article Sample.sentences "this is scary" [("Automotive", ["car"])]
  = ["Automotive"].
Proof. vm_compute. reflexivity. Qed.

(** C1. The classifier lowercases the text and not the keywords. On the
    catalog of [main_workflow] the text [IPO filing] gets no sector, while
    the keyword [IPO] of Finance occurs in it when case is ignored, so
    that the classification of the specification is [Finance]. *)
Theorem uppercase_keyword_missed :
  categorize_article Sample.sentences "IPO filing" SECTORS = []
  /\ ci_occurs_in "IPO" (PyStr.lower "IPO filing")
  /\ classifier_spec "IPO filing" SECTORS = ["Finance"].
Proof.
  split; [vm_compute; reflexivity | split; [|vm_compute; reflexivity]].
  exists EmptyString, " filing". vm_compute. reflexivity.
Qed.

(** C5. A title that is [None] is not replaced by the empty string: the
    default of [dict.get] serves a missing key only, and the f-string
    prints [None]. The articles [get_newsapi_articles] builds always have
    the key, with [None] when the API's item has no title. *)
Theorem null_title_prints_None :
  let item : gmap string pyval := <["description" := PStr "Bank profits rise"]> ∅ in
  let a := newsapi_article item (PStr "Wire") in
  a !! "title" = Some PNone
  /\ fst (title_and_summary_of 0%nat (Sample.store_of a)) = Returned "None. Bank profits rise"
  /\ fst (title_and_summary_of 0%nat
            (Sample.store_of (<["summary" := PStr "Bank profits rise"]> ∅)))
     = Returned ". Bank profits rise".
Proof. vm_compute. repeat split. Qed.

(** C7: the classifier returns on the empty catalog, it raises nothing. *)
Lemma empty_catalog_not_rejected :
  ~ exists e : exn,
      categorize_article_call Sample.sentences "Bank profits rise" (Some []) = Raised e.
Proof. intros [e H]. vm_compute in H. discriminate. Qed.

(** C8: [process_articles] changes the article it is given. *)
Lemma input_article_modified :
  let st := Sample.store_of (Sample.article (PStr "Bank profits rise") (PStr "Shares up.")) in
  snd (process_articles Sample.sentences [0%nat] [("Finance", ["bank"])] st) 0%nat <> st 0%nat.
Proof.
  cbv zeta. intros H. apply (f_equal (fun a : gmap string pyval => a !! "sectors")) in H.
  vm_compute in H. discriminate.
Qed.

(** ** What the pipeline hands to the grouping *)

Section PipelineOutput.

Variable sentences_of : string -> list string.

(** The articles [process_articles] returns carry the sector names the
    classifier found: a list that is not empty and, on a catalog of
    distinct keys, has no repetition. *)
Lemma processed_articles_well_tagged (sectors : catalog) (articles : list loc) (st : store) :
  ODict.wf sectors ->
  exists (processed : list loc) (st' : store),
    process_articles sentences_of articles sectors st = (Returned processed, st')
    /\ forall r, In r processed ->
         exists tags,
           tags_of st' r = Some tags /\ List.NoDup tags /\ tags <> []
           /\ tags = categorize_article sentences_of (article_text (st r)) sectors.
Proof.
  intros Hwf.
  destruct (process_articles_result sentences_of sectors articles st)
    as [processed [st' [Hrun [Hproc [Hin _]]]]].
  exists processed, st'. split; [exact Hrun|].
  intros r Hr. eexists. split; [|split; [|split; [|reflexivity]]].
  - apply (tags_of_enrich sentences_of sectors st' r (st r)). now apply Hin.
  - now apply categorize_article_NoDup.
  - rewrite Hproc in Hr. apply filter_In in Hr as [_ Hrel]. unfold relevant in Hrel.
    intros E. rewrite E in Hrel. discriminate.
Qed.

(** No keyword occurring when case is ignored is the stronger condition:
    it excludes what the code tests. *)
Lemma no_ci_occurrence_no_match (text keyword : string) :
  ~ ci_occurs_in keyword text -> ~ occurs_in keyword (PyStr.lower text).
Proof.
  unfold ci_occurs_in. intros H Hocc. apply H.
  apply occurs_in_lower in Hocc. now rewrite lower_idem in Hocc.
Qed.

End PipelineOutput.

(** With the sample segmenter, which takes the lone stop of the text of an
    article with empty title and summary for a sentence, the summary of
    such an article is that stop. *)
Example empty_article_sample :
  summarize_text Sample.sentences
    (article_text (Sample.article (PStr EmptyString) (PStr EmptyString)))
    default_max_sentences
  = ".".
Proof. vm_compute. reflexivity. Qed.

(** * Further properties of the code *)

(** ** The classifier *)

Lemma append_nil_r (a : string) : a +:+ EmptyString = a.
Proof. induction a as [|c a IH]; str_simpl; [reflexivity | now rewrite IH]. Qed.


(** In a dictionary a key has one value. *)
Lemma odict_In_unique {V : Type} (d : list (string * V)) (k : string) (v v' : V) :
  ODict.wf d -> In (k, v) d -> In (k, v') d -> v = v'.
Proof.
  unfold ODict.wf. induction d as [|[k0 v0] d IH]; simpl; intros Hwf H1 H2; [destruct H1|].
  apply List.NoDup_cons_iff in Hwf as [Hnotin Hnd].
  assert (Hkey : forall w, In (k0, w) d -> False).
  { intros w Hw. apply Hnotin. apply in_map_iff. now exists (k0, w). }
  destruct H1 as [E1|H1], H2 as [E2|H2].
  - congruence.
  - injection E1 as -> ->. exfalso. exact (Hkey v' H2).
  - injection E2 as -> ->. exfalso. exact (Hkey v H1).
  - now apply IH.
Qed.

Section ClassifierMore.

Variable sentences_of : string -> list string.


(** A sector that lists the empty string as a keyword is assigned to every
    text. *)
Theorem empty_keyword_matches_every_text (text sector : string)
    (keywords : list string) (sectors : catalog) :
  In (sector, keywords) sectors -> In EmptyString keywords ->
  In sector (categorize_article sentences_of text sectors).
Proof.
  intros H1 H2. apply categorize_article_In. exists keywords, EmptyString.
  split; [exact H1 | split; [exact H2|]].
  exists EmptyString, (PyStr.lower text). reflexivity.
Qed.

(** A sector of the catalog with an empty keyword list is assigned to no
    text. *)
Theorem sector_without_keywords_unreachable (text sector : string) (sectors : catalog) :
  ODict.wf sectors -> In (sector, []) sectors ->
  ~ In sector (categorize_article sentences_of text sectors).
Proof.
  intros Hwf Hin Hsel. apply categorize_article_In in Hsel as [keywords [keyword [H1 [H2 _]]]].
  rewrite (odict_In_unique sectors sector keywords [] Hwf H1 Hin) in H2. destruct H2.
Qed.

(** Classifying against two catalogs put one after the other gives the two
    classifications one after the other: sectors added to the catalog do
    not change what the sectors before them get. *)
Theorem categorize_article_app (text : string) (sectors1 sectors2 : catalog) :
  categorize_article sentences_of text (sectors1 ++ sectors2)
  = categorize_article sentences_of text sectors1
    ++ categorize_article sentences_of text sectors2.
Proof. rewrite !categorize_article_filter. now rewrite List.filter_app, map_app. Qed.

End ClassifierMore.

(** ** The summarizer *)

Lemma join_cons_cons (sep a b : string) (l : list string) :
  PyStr.join sep (a :: b :: l) = a +:+ sep +:+ PyStr.join sep (b :: l).
Proof. reflexivity. Qed.

Lemma join_firstn_prefix (sep : string) (l : list string) (n m : nat) :
  (n <= m)%nat ->
  exists rest, PyStr.join sep (firstn m l) = PyStr.join sep (firstn n l) +:+ rest.
Proof.
  revert n m. induction l as [|a l IH]; intros n m Hle.
  - rewrite !firstn_nil. now exists EmptyString.
  - destruct n as [|n].
    + simpl firstn at 2. eexists. simpl PyStr.join at 2. now rewrite append_nil_l.
    + destruct m as [|m]; [lia|]. simpl firstn.
      destruct l as [|b l].
      * rewrite !firstn_nil. exists EmptyString. now rewrite append_nil_r.
      * destruct n as [|n].
        -- simpl firstn at 2. destruct m as [|m].
           ++ exists EmptyString. now rewrite append_nil_r.
           ++ eexists. simpl firstn. rewrite join_cons_cons. reflexivity.
        -- destruct m as [|m]; [lia|].
           destruct (IH (S n) (S m)) as [rest Hrest]; [lia|].
           exists rest. simpl firstn in *. rewrite !join_cons_cons, Hrest.
           now rewrite !append_assoc.
Qed.

Section SummarizerMore.

Variable sentences_of : string -> list string.

(** A negative limit counts from the end, as a slice does: the summary
    joins all the sentences but the last [- max_sentences] of them, and is
    empty when there are no more sentences than that. *)
Theorem summarize_text_negative_limit (text : string) (max_sentences : Z) :
  max_sentences < 0 ->
  summarize_text sentences_of text max_sentences
  = PyStr.join " "
      (firstn (length (sentences_of text) - Z.to_nat (- max_sentences))
         (sentences_of text)).
Proof.
  intros H. unfold summarize_text, slice_to, slice_stop. simpl.
  destruct (Z.ltb_spec max_sentences 0) as [_|]; [|lia].
  do 2 f_equal.
  destruct (Z.ltb_spec (max_sentences + Z.of_nat (length (sentences_of text))) 0); lia.
Qed.

(** Raising the limit only appends to the summary: the summary at a limit
    is the beginning of the summary at any larger limit. *)
Theorem summarize_text_grows (text : string) (n m : Z) :
  0 <= n -> n <= m ->
  exists rest,
    summarize_text sentences_of text m = summarize_text sentences_of text n +:+ rest.
Proof.
  intros Hn Hm. unfold summarize_text. simpl.
  rewrite !slice_to_nonneg by lia. apply join_firstn_prefix. lia.
Qed.

End SummarizerMore.

(** ** Processing the articles *)

Lemma existsb_nat_app (r : loc) (l1 l2 : list loc) :
  existsb (Nat.eqb r) (l1 ++ l2) = existsb (Nat.eqb r) l1 || existsb (Nat.eqb r) l2.
Proof. apply existsb_app. Qed.

Section ProcessingMore.

Variable sentences_of : string -> list string.

(** After a run every article is either as it was or enriched, and has the
    text, hence the relevance, it had. *)
Lemma relevant_after_run (sectors : catalog) (articles : list loc) (st st' : store) :
  (forall r, st' r = if relevant sentences_of sectors (st r) && existsb (Nat.eqb r) articles
                     then enrich sentences_of sectors (st r)
                     else st r) ->
  forall r, relevant sentences_of sectors (st' r) = relevant sentences_of sectors (st r).
Proof.
  intros Hst r. rewrite Hst.
  destruct (relevant sentences_of sectors (st r) && existsb (Nat.eqb r) articles);
    [|reflexivity].
  unfold relevant. now rewrite article_text_enrich.
Qed.

(** [process_articles] returns the articles that get at least one sector,
    in the order of the input and as often as the input lists them, and
    distinct articles stay distinct. *)
Theorem process_articles_keeps_relevant (sectors : catalog) (articles : list loc)
    (st : store) :
  fst (process_articles sentences_of articles sectors st)
  = Returned (List.filter (fun r => relevant sentences_of sectors (st r)) articles)
  /\ (List.NoDup articles ->
      List.NoDup (List.filter (fun r => relevant sentences_of sectors (st r)) articles)).
Proof.
  destruct (process_articles_run sentences_of sectors articles st) as [st' [Hrun _]].
  split; [now rewrite Hrun | apply List.NoDup_filter].
Qed.

(** Processing again the articles already processed returns the same list
    and changes nothing more. *)
Theorem process_articles_rerun (sectors : catalog) (articles : list loc) (st : store) :
  exists (processed : list loc) (st1 st2 : store),
    process_articles sentences_of articles sectors st = (Returned processed, st1)
    /\ process_articles sentences_of articles sectors st1 = (Returned processed, st2)
    /\ forall r, st2 r = st1 r.
Proof.
  destruct (process_articles_run sentences_of sectors articles st) as [st1 [Hrun1 Hst1]].
  destruct (process_articles_run sentences_of sectors articles st1) as [st2 [Hrun2 Hst2]].
  pose proof (relevant_after_run sectors articles st st1 Hst1) as Hrel.
  exists (List.filter (fun r => relevant sentences_of sectors (st r)) articles), st1, st2.
  split; [exact Hrun1 | split].
  - rewrite Hrun2. now rewrite (filter_ext _ _ Hrel).
  - intros r. rewrite Hst2, Hrel, Hst1.
    destruct (relevant sentences_of sectors (st r) && existsb (Nat.eqb r) articles);
      [apply enrich_idem | reflexivity].
Qed.

(** Processing a list in two parts, the second on the store the first
    leaves, gives what processing it at once gives: the two results one
    after the other, and the same articles. *)
Theorem process_articles_in_batches (sectors : catalog) (batch1 batch2 : list loc)
    (st : store) :
  exists (p1 p2 : list loc) (st1 st2 st12 : store),
    process_articles sentences_of batch1 sectors st = (Returned p1, st1)
    /\ process_articles sentences_of batch2 sectors st1 = (Returned p2, st2)
    /\ process_articles sentences_of (batch1 ++ batch2) sectors st = (Returned (p1 ++ p2), st12)
    /\ forall r, st12 r = st2 r.
Proof.
  destruct (process_articles_run sentences_of sectors batch1 st) as [st1 [Hrun1 Hst1]].
  destruct (process_articles_run sentences_of sectors batch2 st1) as [st2 [Hrun2 Hst2]].
  destruct (process_articles_run sentences_of sectors (batch1 ++ batch2) st)
    as [st12 [Hrun Hst12]].
  pose proof (relevant_after_run sectors batch1 st st1 Hst1) as Hrel.
  eexists _, _, st1, st2, st12. split; [exact Hrun1 | split; [exact Hrun2 | split]].
  - rewrite Hrun, List.filter_app. now rewrite (filter_ext _ _ Hrel).
  - intros r. rewrite Hst12, Hst2, Hrel, Hst1, existsb_nat_app.
    destruct (relevant sentences_of sectors (st r)); simpl; [|reflexivity].
    destruct (existsb (Nat.eqb r) batch1), (existsb (Nat.eqb r) batch2); simpl;
      try reflexivity.
    now rewrite enrich_idem.
Qed.

End ProcessingMore.

(** ** Grouping by sector *)

Lemma for_each_app {A S : Type} (l1 l2 : list A) (body : S -> A -> Py S) (s : S) (st : store) :
  for_each (l1 ++ l2) body s st = bind (for_each l1 body s) (for_each l2 body) st.
Proof.
  revert s st. induction l1 as [|x l1 IH]; intros s st; [reflexivity|].
  simpl. unfold bind in *. destruct (body s x st) as [[a|e] st']; [apply IH | reflexivity].
Qed.




(** The grouping stops at the first article that has no [sectors] entry,
    with [KeyError], or whose [sectors] entry is [None], with [TypeError];
    nothing is returned for the articles before it. *)
Theorem grouping_raises_on_untagged (SECTORS : catalog) (before after : list loc)
    (r : loc) (st : store) :
  (forall x, In x before -> tags_of st x <> None) ->
  (st r !! "sectors" = None ->
   filtered_articles_by_sector SECTORS (before ++ r :: after) st
   = (Raised (KeyError "sectors"), st))
  /\ (st r !! "sectors" = Some PNone ->
      filtered_articles_by_sector SECTORS (before ++ r :: after) st = (Raised TypeError, st)).
Proof.
  intros Hbefore.
  assert (Hrun : forall e,
             (forall g, group_article g r st = (Raised e, st)) ->
             filtered_articles_by_sector SECTORS (before ++ r :: after) st = (Raised e, st)).
  { intros e He. unfold filtered_articles_by_sector, articles_by_sector.
    unfold bind at 1. rewrite for_each_app. unfold bind at 1.
    rewrite group_loop_run by (exact Hbefore || apply empty_groups_wf).
    simpl. unfold bind at 1. now rewrite He. }
  split; intros Hr; apply Hrun; intros g; unfold group_article, bind, getitem;
    now rewrite Hr.
Qed.

Lemma filter_none {A : Type} (p : A -> bool) (l : list A) :
  (forall x, In x l -> p x = false) -> List.filter p l = [].
Proof.
  induction l as [|x l IH]; simpl; intros H; [reflexivity|].
  rewrite (H x) by now left. apply IH. intros y Hy. apply H. now right.
Qed.

Lemma hits_absent (r : loc) (k : string) (tags : list string) :
  ~ In k tags -> hits r k tags = [].
Proof.
  intros H. destruct (hits r k tags) as [|x l] eqn:E; [reflexivity|].
  exfalso. apply H. apply (hits_In r x k tags). rewrite E. now left.
Qed.

Lemma flat_map_nil {A B : Type} (f : A -> list B) (l : list A) :
  (forall x, In x l -> f x = []) -> flat_map f l = [].
Proof.
  induction l as [|x l IH]; simpl; intros H; [reflexivity|].
  rewrite (H x) by now left. apply IH. intros y Hy. apply H. now right.
Qed.

(** When no processed article names a sector of the catalog (in particular
    when there is no article), the payload is empty: no key is left. *)
Theorem no_catalog_sector_empty_payload (SECTORS : catalog) (processed : list loc)
    (st : store) :
  (forall r, In r processed -> tags_of st r <> None) ->
  (forall r sector, In r processed -> In sector (tags_or_nil st r) ->
                    ~ In sector (ODict.keys SECTORS)) ->
  filtered_articles_by_sector SECTORS processed st = (Returned [], st).
Proof.
  intros Htags Hnone. rewrite filtered_run by exact Htags. do 2 f_equal.
  apply filter_none. intros e He. apply in_map_iff in He as [g [<- Hg]]. simpl.
  rewrite flat_map_nil; [reflexivity|].
  intros r Hr. apply hits_absent. intros Hin.
  apply (Hnone r (fst g) Hr Hin). apply empty_groups_keys.
  apply in_map_iff. now exists g.
Qed.

Lemma filter_keys_NoDup {V : Type} (p : string * V -> bool) (d : list (string * V)) :
  ODict.wf d -> ODict.wf (List.filter p d).
Proof.
  unfold ODict.wf. induction d as [|e d IH]; simpl; intros Hwf; [constructor|].
  apply List.NoDup_cons_iff in Hwf as [Hnotin Hnd].
  destruct (p e); simpl; [|now apply IH].
  apply List.NoDup_cons_iff. split; [|now apply IH].
  intros Hin. apply Hnotin. now apply (filter_keys_incl p d).
Qed.

(** The payload is a dictionary without empty values, whatever the
    catalog and the sector names of the articles: its keys are distinct
    and none of its buckets is empty. *)
Theorem payload_invariants (SECTORS : catalog) (processed : list loc) (st : store) :
  (forall r, In r processed -> tags_of st r <> None) ->
  exists payload : list (string * list loc),
    filtered_articles_by_sector SECTORS processed st = (Returned payload, st)
    /\ ODict.wf payload
    /\ forall sector bucket, In (sector, bucket) payload -> bucket <> [].
Proof.
  intros Htags. eexists. split; [now apply filtered_run | split].
  - apply filter_keys_NoDup. unfold ODict.wf. rewrite keys_map_values.
    apply empty_groups_wf.
  - intros sector bucket Hin. apply filter_In in Hin as [_ Hne]. simpl in Hne.
    now destruct bucket.
Qed.

Lemma odict_get_In {V : Type} (d : list (string * V)) (k : string) (v : V) :
  ODict.wf d -> In (k, v) d -> ODict.get d k = Some v.
Proof.
  unfold ODict.wf. induction d as [|[k0 v0] d IH]; simpl; intros Hwf Hin; [destruct Hin|].
  apply List.NoDup_cons_iff in Hwf as [Hnotin Hnd].
  destruct (String.eqb_spec k0 k) as [->|Hne].
  - destruct Hin as [E|Hin]; [congruence|].
    exfalso. apply Hnotin. apply in_map_iff. now exists (k, v).
  - destruct Hin as [E|Hin]; [congruence | now apply IH].
Qed.

Lemma empty_groups_has_key (SECTORS : catalog) (k : string) :
  In k (ODict.keys SECTORS) -> In k (ODict.keys (empty_groups SECTORS)).
Proof.
  unfold empty_groups. generalize (@nil (string * list loc)) as acc.
  induction (ODict.keys SECTORS) as [|s ks IH]; intros acc Hin; [destruct Hin|].
  simpl.
  assert (Hacc : forall ks' (d : list (string * list loc)),
             In k (ODict.keys d) ->
             In k (ODict.keys (fold_left (fun d sector => ODict.set d sector []) ks' d))).
  { induction ks' as [|s' ks' IH']; intros d Hd; [exact Hd|].
    simpl. apply IH'. apply odict_set_keys. now left. }
  destruct Hin as [->|Hin]; [|now apply IH].
  apply Hacc. apply odict_set_keys. now right.
Qed.

Lemma count_occ_hits (x r : loc) (k : string) (tags : list string) :
  count_occ Nat.eq_dec (hits x k tags) r
  = if Nat.eq_dec x r then count_occ String.string_dec tags k else 0%nat.
Proof.
  induction tags as [|s tags IH].
  - simpl. now destruct (Nat.eq_dec x r).
  - change (hits x k (s :: tags))
      with ((if String.eqb k s then [x] else []) ++ hits x k tags).
    rewrite count_occ_app. unfold loc in *. rewrite IH. simpl.
    destruct (String.string_dec s k) as [Heq|Hneq]; destruct (String.eqb_spec k s);
      try congruence; simpl; destruct (Nat.eq_dec x r); reflexivity.
Qed.

Lemma count_occ_bucket (tags : loc -> list string) (k : string) (processed : list loc)
    (r : loc) :
  count_occ Nat.eq_dec (flat_map (fun x => hits x k (tags x)) processed) r
  = (count_occ Nat.eq_dec processed r * count_occ String.string_dec (tags r) k)%nat.
Proof.
  induction processed as [|x processed IH]; simpl; [reflexivity|].
  rewrite count_occ_app. unfold loc in *. rewrite IH, count_occ_hits.
  destruct (Nat.eq_dec x r) as [->|Hne]; lia.
Qed.

(** How often an article is in a bucket: as often as the list grouped
    holds the article, times as often as the article's sector names hold
    the sector. A sector that is no key of the catalog has no bucket. *)
Theorem bucket_multiplicity (SECTORS : catalog) (processed : list loc) (st : store) :
  (forall r, In r processed -> tags_of st r <> None) ->
  exists payload : list (string * list loc),
    filtered_articles_by_sector SECTORS processed st = (Returned payload, st)
    /\ (forall sector r,
          In sector (ODict.keys SECTORS) ->
          count_occ Nat.eq_dec (bucket_or_nil payload sector) r
          = (count_occ Nat.eq_dec processed r
             * count_occ String.string_dec (tags_or_nil st r) sector)%nat)
    /\ (forall sector, ~ In sector (ODict.keys SECTORS) -> bucket_or_nil payload sector = []).
Proof.
  intros Htags.
  pose (B := fun k => flat_map (fun r => hits r k (tags_or_nil st r)) processed).
  pose (payload := List.filter (fun e : string * list loc => truthy (snd e))
                     (map (fun e : string * list loc => (fst e, B (fst e)))
                        (empty_groups SECTORS))).
  exists payload. split; [now rewrite filtered_run|].
  assert (Hwf : ODict.wf payload).
  { apply filter_keys_NoDup. unfold ODict.wf. rewrite keys_map_values.
    apply empty_groups_wf. }
  assert (Hmem : forall k b, In (k, b) payload -> b = B k).
  { intros k b Hin. apply filter_In in Hin as [Hin _].
    apply in_map_iff in Hin as [e [He _]]. now injection He as <- <-. }
  split.
  - intros sector r Hk. rewrite <- (count_occ_bucket (tags_or_nil st) sector processed r).
    fold (B sector). f_equal. unfold bucket_or_nil.
    destruct (ODict.get payload sector) as [b|] eqn:Hget.
    + destruct (B sector) as [|x l] eqn:HB.
      * assert (Hin : In sector (ODict.keys payload)).
        { apply odict_mem_keys. unfold ODict.mem. now rewrite Hget. }
        apply in_map_iff in Hin as [[k b'] [Hk' Hin]]. simpl in Hk'. subst k.
        pose proof (Hmem sector b' Hin) as Hb'. rewrite HB in Hb'. subst b'.
        apply filter_In in Hin as [_ Hne]. discriminate.
      * assert (Hin : In (sector, x :: l) payload).
        { apply filter_In. split; [|reflexivity].
          apply empty_groups_has_key in Hk. apply in_map_iff in Hk as [e [He Hin]].
          apply in_map_iff. exists e. split; [|exact Hin]. now rewrite He, HB. }
        rewrite (odict_get_In payload sector (x :: l) Hwf Hin) in Hget. congruence.
    + destruct (B sector) as [|x l] eqn:HB; [reflexivity|].
      assert (Hin : In (sector, x :: l) payload).
      { apply filter_In. split; [|reflexivity].
        apply empty_groups_has_key in Hk. apply in_map_iff in Hk as [e [He Hin]].
        apply in_map_iff. exists e. split; [|exact Hin]. now rewrite He, HB. }
      rewrite (odict_get_In payload sector (x :: l) Hwf Hin) in Hget. discriminate.
  - intros sector Hk. unfold bucket_or_nil.
    destruct (ODict.get payload sector) as [b|] eqn:Hget; [|reflexivity].
    exfalso. apply Hk. apply empty_groups_keys.
    rewrite <- (keys_map_values (fun e => B (fst e))).
    apply (filter_keys_incl (fun e => truthy (snd e))).
    apply odict_mem_keys. unfold ODict.mem. fold payload. now rewrite Hget.
Qed.

(** ** Fetching *)

Lemma collect_articles_spec (items : list api_item) (acc l : list (gmap string pyval)) :
  collect_articles items acc = Returned l
  <-> exists l', l = acc ++ l'
        /\ Forall2 (fun item a => has_source_name item /\ a = article_of_item item) items l'.
Proof.
  revert acc l. induction items as [|item items IH]; intros acc l; simpl.
  - split.
    + intros H. injection H as <-. exists []. split; [now rewrite app_nil_r | constructor].
    + intros [l' [-> H]]. inversion H. now rewrite app_nil_r.
  - unfold article_of_item at 1, has_source_name at 1.
    destruct (source_name item) as [name|e] eqn:Hname.
    + rewrite IH. split.
      * intros [l' [-> H]]. exists (newsapi_article (item_entries item) name :: l').
        split; [now rewrite <- app_assoc|].
        constructor; [|exact H]. split; [now exists name|].
        unfold article_of_item. now rewrite Hname.
      * intros [l' [-> H]]. inversion H as [|x a xs l'' [_ Ha] Hrest]; subst.
        exists l''. split; [|exact Hrest].
        rewrite <- app_assoc. simpl. unfold article_of_item. now rewrite Hname.
    + split; [discriminate|].
      intros [l' [_ H]]. inversion H as [|x a xs l'' [[n Hn] _] _]; subst. congruence.
Qed.

Lemma collect_articles_all (items : list api_item) :
  Forall has_source_name items ->
  collect_articles items [] = Returned (map article_of_item items).
Proof.
  intros H. apply collect_articles_spec. exists (map article_of_item items).
  split; [reflexivity|]. induction H as [|item items Hitem _ IH]; simpl; constructor; auto.
Qed.

(** The fetch returns a list exactly when every item of the answer has a
    source with a name; the list then has one article for each item, in
    the order of the answer. *)
Theorem fetch_one_article_per_item (items : list api_item)
    (articles : list (gmap string pyval)) :
  get_newsapi_articles (Answer (Some items)) = Fetched articles
  <-> Forall has_source_name items /\ articles = map article_of_item items.
Proof.
  unfold get_newsapi_articles. split.
  - destruct (collect_articles items []) as [l|e] eqn:E; [|discriminate].
    intros H. injection H as <-. apply collect_articles_spec in E as [l' [-> H]].
    simpl. clear -H. induction H as [|item a items l' [Hn ->] _ [IH1 IH2]].
    + split; [constructor | reflexivity].
    + split; [now constructor | simpl; now rewrite IH2].
  - intros [H ->]. now rewrite collect_articles_all.
Qed.

Lemma collect_articles_abort (before after : list api_item) (item : api_item) (e : exn)
    (acc : list (gmap string pyval)) :
  Forall has_source_name before -> source_name item = Raised e ->
  collect_articles (before ++ item :: after) acc = Raised e.
Proof.
  intros Hbefore Hitem. revert acc.
  induction Hbefore as [|x before [n Hn] _ IH]; intros acc; simpl.
  - now rewrite Hitem.
  - rewrite Hn. apply IH.
Qed.

(** One item without a source, or whose source has no name, loses the
    whole answer: the fetch raises [KeyError] and returns no article, and
    the exception, not being a [RequestException], ends [main_workflow]. *)
Theorem fetch_aborts_on_item_without_source (before after : list api_item)
    (item : api_item) :
  Forall has_source_name before ->
  ~ has_source_name item ->
  exists key,
    get_newsapi_articles (Answer (Some (before ++ item :: after)))
    = FetchRaised (KeyError key)
    /\ forall sentences_of render today,
         fst (main_workflow sentences_of render
                (Answer (Some (before ++ item :: after))) today)
         = Uncaught (KeyError key).
Proof.
  intros Hbefore Hitem.
  assert (Hraise : exists key, source_name item = Raised (KeyError key)).
  { unfold has_source_name, source_name in *.
    destruct (item_source item) as [src|]; [|now exists "source"].
    destruct (src !! "name") as [v|]; [|now exists "name"].
    exfalso. apply Hitem. now exists v. }
  destruct Hraise as [key Hkey]. exists key.
  assert (Hfetch : get_newsapi_articles (Answer (Some (before ++ item :: after)))
                   = FetchRaised (KeyError key)).
  { unfold get_newsapi_articles.
    now rewrite (collect_articles_abort before after item (KeyError key) [] Hbefore Hkey). }
  split; [exact Hfetch|]. intros sentences_of render today.
  unfold main_workflow. now rewrite Hfetch.
Qed.


(** A fetched article has the five keys [title], [link], [published],
    [summary] and [source] and no other, whatever the item holds; a key
    the item lacks gets [None]. So the default [''] of [process_articles]
    is never used on a fetched article: its text is [str] of the item's
    title, a stop and a space, and [str] of its description. *)
Theorem fetched_article_entries (entries : gmap string pyval) (name : pyval) :
  let a := newsapi_article entries name in
  (forall key, is_Some (a !! key)
               <-> In key ["title"; "link"; "published"; "summary"; "source"])
  /\ a !! "title" = Some (py_get entries "title")
  /\ a !! "summary" = Some (py_get entries "description")
  /\ a !! "source" = Some name
  /\ article_text a = item_text entries.
Proof.
  cbv zeta. split; [|split; [|split; [|split]]].
  - intros key. unfold newsapi_article. simpl.
    rewrite !lookup_insert_is_Some, lookup_empty, is_Some_alt. intuition congruence.
  - unfold newsapi_article. now rewrite lookup_insert_eq.
  - unfold newsapi_article. rewrite !(lookup_insert_ne _ _ "summary") by discriminate.
    now rewrite lookup_insert_eq.
  - unfold newsapi_article. rewrite !(lookup_insert_ne _ _ "source") by discriminate.
    now rewrite lookup_insert_eq.
  - unfold article_text, newsapi_article, item_text.
    rewrite lookup_insert_eq.
    rewrite !(lookup_insert_ne _ _ "summary") by discriminate.
    now rewrite lookup_insert_eq.
Qed.

(** ** The workflow *)











Section WorkflowFacts.

Variable sentences_of : string -> list string.
Variable render : list (string * list (gmap string pyval)) -> string -> string.





(** A failed request ends [main_workflow] with no article processed; an
    answer without an [articles] entry ends it with an uncaught
    [KeyError]. *)
Lemma main_workflow_no_answer (today : string) :
  fst (main_workflow sentences_of render RequestFailed today) = FetchFailed
  /\ fst (main_workflow sentences_of render (Answer None) today)
     = Uncaught (KeyError "articles").
Proof. split; reflexivity. Qed.

End WorkflowFacts.

(** ** The theorems at concrete inputs *)

(** C2 at the example of the specification: catalog order Tech, Finance;
    one article tagged Finance, one tagged Tech and Finance. *)
Lemma aggregator_buckets_witness :
  ODict.wf Sample.two_sectors
  /\ fst (filtered_articles_by_sector Sample.two_sectors [0%nat; 1%nat] Sample.tagged)
     = Returned [("Tech", [1%nat]); ("Finance", [0%nat; 1%nat])].
Proof.
  assert (Hwf : ODict.wf Sample.two_sectors).
  { unfold ODict.wf. simpl. repeat constructor; simpl; intuition discriminate. }
  split; [exact Hwf|].
  destruct (aggregator_buckets Sample.two_sectors [0%nat; 1%nat] Sample.tagged Hwf)
    as [payload [Hrun [Hp _]]].
  - intros r [<-|[<-|[]]]; eexists; (split; [vm_compute; reflexivity|]);
      repeat constructor; simpl; intuition discriminate.
  - rewrite Hrun, Hp. vm_compute. reflexivity.
Defined.

(** C3 at a text of four sentences and the limit 2. *)
Lemma summarize_text_first_sentences_witness :
  0 <= 2
  /\ summarize_text Sample.sentences "One. Two. Three. Four." 2 = "One. Two.".
Proof.
  split; [lia|].
  destruct (summarize_text_first_sentences Sample.sentences "One. Two. Three. Four." 2)
    as [H _]; [lia|].
  rewrite H. vm_compute. reflexivity.
Defined.

(** C4 at two articles, of which the second holds no keyword. *)
Lemma unmatched_article_excluded_witness :
  fst (process_articles Sample.sentences [0%nat; 1%nat] Sample.two_sectors Sample.fetched)
  = Returned [0%nat]
  /\ exists (processed : list loc) (st' : store) (payload : list (string * list loc)),
       process_articles Sample.sentences [0%nat; 1%nat] Sample.two_sectors Sample.fetched
       = (Returned processed, st')
       /\ ~ In 1%nat processed
       /\ st' 1%nat = Sample.fetched 1%nat
       /\ filtered_articles_by_sector Sample.two_sectors processed st' = (Returned payload, st')
       /\ forall sector bucket, In (sector, bucket) payload -> ~ In 1%nat bucket.
Proof.
  split; [vm_compute; reflexivity|].
  apply (unmatched_article_excluded Sample.sentences Sample.two_sectors [0%nat; 1%nat]
           Sample.fetched 1%nat).
  intros sector keywords keyword Hin Hk. rewrite <- contains_spec.
  destruct Hin as [E|[E|[]]]; injection E as <- <-; destruct Hk as [<-|[]];
    vm_compute; discriminate.
Defined.

(** C9 at two texts that differ in white space only. *)
Lemma summarize_text_same_result_witness :
  Sample.sentences "A. B. C." = Sample.sentences "  A.   B. C."
  /\ summarize_text Sample.sentences "A. B. C." 2
     = summarize_text Sample.sentences "  A.   B. C." 2.
Proof.
  split; [vm_compute; reflexivity|].
  apply summarize_text_same_result. vm_compute. reflexivity.
Defined.

(** C10 at an article tagged Tech and Crypto, the catalog having no
    Crypto. *)
Lemma payload_keys_in_catalog_witness :
  fst (filtered_articles_by_sector Sample.two_sectors [0%nat] Sample.tagged_unknown)
  = Returned [("Tech", [0%nat])]
  /\ exists payload : list (string * list loc),
       filtered_articles_by_sector Sample.two_sectors [0%nat] Sample.tagged_unknown
       = (Returned payload, Sample.tagged_unknown)
       /\ (forall sector, In sector (ODict.keys payload)
                          -> In sector (ODict.keys Sample.two_sectors))
       /\ (forall sector bucket r,
             In (sector, bucket) payload -> In r bucket ->
             In r [0%nat] /\ has_tag Sample.tagged_unknown sector r = true).
Proof.
  split; [vm_compute; reflexivity|].
  apply (payload_keys_in_catalog Sample.two_sectors [0%nat] Sample.tagged_unknown).
  intros r [<-|[]]. vm_compute. discriminate.
Defined.

(** The classifier on a lowercase catalog and a text with capitals. *)
Lemma categorize_article_lowercase_witness :
  lowercase_keywords Sample.two_sectors
  /\ categorize_article Sample.sentences "Big BANK chips" Sample.two_sectors
     = classifier_spec "Big BANK chips" Sample.two_sectors.
Proof.
  assert (H : lowercase_keywords Sample.two_sectors).
  { intros sector keywords keyword Hin Hk.
    destruct Hin as [E|[E|[]]]; injection E as <- <-; destruct Hk as [<-|[]]; reflexivity. }
  split; [exact H|].
  apply (categorize_article_lowercase Sample.sentences "Big BANK chips" Sample.two_sectors H).
Defined.

(** A keyword that is found is lowercase. *)
Lemma contains_lower_lowercase_witness :
  PyStr.contains (PyStr.lower "Big BANK") "bank" = true /\ PyStr.lower "bank" = "bank".
Proof.
  assert (H : PyStr.contains (PyStr.lower "Big BANK") "bank" = true)
    by (vm_compute; reflexivity).
  split; [exact H|].
  exact (contains_lower_lowercase "Big BANK" "bank" H).
Defined.

(** The articles kept of the two fetched ones, and their sector names. *)
Lemma processed_articles_well_tagged_witness :
  ODict.wf Sample.two_sectors
  /\ exists (processed : list loc) (st' : store),
       process_articles Sample.sentences [0%nat; 1%nat] Sample.two_sectors Sample.fetched
       = (Returned processed, st')
       /\ forall r, In r processed ->
            exists tags,
              tags_of st' r = Some tags /\ List.NoDup tags /\ tags <> []
              /\ tags = categorize_article Sample.sentences
                          (article_text (Sample.fetched r)) Sample.two_sectors.
Proof.
  assert (Hwf : ODict.wf Sample.two_sectors).
  { unfold ODict.wf. simpl. repeat constructor; simpl; intuition discriminate. }
  split; [exact Hwf|].
  exact (processed_articles_well_tagged Sample.sentences Sample.two_sectors
           [0%nat; 1%nat] Sample.fetched Hwf).
Defined.

(** ** The further properties at concrete inputs *)


(** A sector with the empty keyword, on a text with none of its words. *)
Lemma empty_keyword_matches_every_text_witness :
  In EmptyString [EmptyString; "chip"]
  /\ In "All" (categorize_article Sample.sentences "Weather today"
                 [("All", [EmptyString; "chip"])]).
Proof.
  assert (H : In EmptyString [EmptyString; "chip"]) by now left.
  split; [exact H|].
  apply (empty_keyword_matches_every_text Sample.sentences "Weather today" "All"
           [EmptyString; "chip"] [("All", [EmptyString; "chip"])]); [now left | exact H].
Defined.

(** A sector with no keyword, beside one that matches. *)
Lemma sector_without_keywords_unreachable_witness :
  ODict.wf [("Tech", ["chip"]); ("Empty", @nil string)]
  /\ ~ In "Empty" (categorize_article Sample.sentences "chip maker"
                     [("Tech", ["chip"]); ("Empty", [])]).
Proof.
  assert (Hwf : ODict.wf [("Tech", ["chip"]); ("Empty", @nil string)]).
  { unfold ODict.wf. simpl. repeat constructor; simpl; intuition discriminate. }
  split; [exact Hwf|].
  apply (sector_without_keywords_unreachable Sample.sentences "chip maker" "Empty"
           [("Tech", ["chip"]); ("Empty", [])] Hwf).
  right. now left.
Defined.

(** The limit -1 on three sentences. *)
Lemma summarize_text_negative_limit_witness :
  -1 < 0 /\ summarize_text Sample.sentences "One. Two. Three." (-1) = "One. Two.".
Proof.
  split; [lia|].
  rewrite (summarize_text_negative_limit Sample.sentences "One. Two. Three." (-1)) by lia.
  vm_compute. reflexivity.
Defined.

(** The limits 1 and 3 on three sentences. *)
Lemma summarize_text_grows_witness :
  0 <= 1 /\ 1 <= 3
  /\ exists rest,
       summarize_text Sample.sentences "One. Two. Three." 3
       = summarize_text Sample.sentences "One. Two. Three." 1 +:+ rest.
Proof.
  split; [lia | split; [lia|]].
  apply (summarize_text_grows Sample.sentences "One. Two. Three." 1 3); lia.
Defined.

(** A processed article followed by one that was not processed. *)
Lemma grouping_raises_on_untagged_witness :
  filtered_articles_by_sector Sample.two_sectors [0%nat; 1%nat] Sample.half_processed
  = (Raised (KeyError "sectors"), Sample.half_processed).
Proof.
  destruct (grouping_raises_on_untagged Sample.two_sectors [0%nat] [] 1%nat
              Sample.half_processed) as [H _].
  - intros x [<-|[]]. vm_compute. discriminate.
  - apply H. vm_compute. reflexivity.
Defined.

(** An article whose only sector is unknown to the catalog. *)
Lemma no_catalog_sector_empty_payload_witness :
  filtered_articles_by_sector Sample.two_sectors [0%nat] Sample.tagged_crypto
  = (Returned [], Sample.tagged_crypto).
Proof.
  apply (no_catalog_sector_empty_payload Sample.two_sectors [0%nat] Sample.tagged_crypto).
  - intros r [<-|[]]. vm_compute. discriminate.
  - intros r sector [<-|[]] Hs Hk. vm_compute in Hs. destruct Hs as [<-|[]].
    vm_compute in Hk. destruct Hk as [E|[E|[]]]; discriminate.
Defined.

(** The payload of an article tagged Tech and Crypto. *)
Lemma payload_invariants_witness :
  exists payload : list (string * list loc),
    filtered_articles_by_sector Sample.two_sectors [0%nat] Sample.tagged_unknown
    = (Returned payload, Sample.tagged_unknown)
    /\ ODict.wf payload
    /\ forall sector bucket, In (sector, bucket) payload -> bucket <> [].
Proof.
  apply (payload_invariants Sample.two_sectors [0%nat] Sample.tagged_unknown).
  intros r [<-|[]]. vm_compute. discriminate.
Defined.

(** An article listed twice that names Tech twice is four times in the
    bucket of Tech. *)
Lemma bucket_multiplicity_witness :
  fst (filtered_articles_by_sector Sample.two_sectors [0%nat; 0%nat] Sample.tagged_twice)
  = Returned [("Tech", [0%nat; 0%nat; 0%nat; 0%nat])]
  /\ exists payload : list (string * list loc),
       filtered_articles_by_sector Sample.two_sectors [0%nat; 0%nat] Sample.tagged_twice
       = (Returned payload, Sample.tagged_twice)
       /\ (forall sector r,
             In sector (ODict.keys Sample.two_sectors) ->
             count_occ Nat.eq_dec (bucket_or_nil payload sector) r
             = (count_occ Nat.eq_dec [0%nat; 0%nat] r
                * count_occ String.string_dec (tags_or_nil Sample.tagged_twice r) sector)%nat)
       /\ (forall sector, ~ In sector (ODict.keys Sample.two_sectors) ->
                          bucket_or_nil payload sector = []).
Proof.
  split; [vm_compute; reflexivity|].
  apply (bucket_multiplicity Sample.two_sectors [0%nat; 0%nat] Sample.tagged_twice).
  intros r [<-|[<-|[]]]; vm_compute; discriminate.
Defined.

(** An answer whose second item has no source. *)
Lemma fetch_aborts_on_item_without_source_witness :
  exists key,
    get_newsapi_articles (Answer (Some ([Sample.bank_item] ++ Sample.sourceless_item :: [])))
    = FetchRaised (KeyError key)
    /\ forall sentences_of render today,
         fst (main_workflow sentences_of render
                (Answer (Some ([Sample.bank_item] ++ Sample.sourceless_item :: []))) today)
         = Uncaught (KeyError key).
Proof.
  apply (fetch_aborts_on_item_without_source [Sample.bank_item] [] Sample.sourceless_item).
  - constructor; [|constructor]. exists (PStr "Wire"). vm_compute. reflexivity.
  - intros [name H]. vm_compute in H. discriminate.
Defined.

